(** * BoardGameGeek trend scraper: extraction and enrichment pipeline

    A shallow embedding of [src/main.js]: the JavaScript values the code
    handles, the string and regular-expression operations it applies, the
    Cheerio queries it issues, and the two page handlers
    [extractGameFromPageCheerio] and [listingPageHandler], followed by the
    properties of the pipeline.

    Conventions.
    - A JavaScript string is a [string]; a character is a Latin-1 code unit.
    - A value that may be [undefined], [null], a string, an array, an object
      or a built-in method is a [JsVal].  The tree that xml2js builds with
      [explicitArray: false, mergeAttrs: true] holds strings, arrays and
      objects only.
    - External collaborators (the [URL] constructor, [fetch], the XML parser,
      the dataset, the key-value store, the clock) are inputs: [new_URL] is a
      parameter of the development, the others are fields of [Env]. *)

From stdpp Require Import gmap strings list.
From Stdlib Require Import Ascii String.

Set Warnings "-register-all".
Local Open Scope string_scope.

(** ** JavaScript values *)

Module Js.

Inductive JsVal :=
  | JUndef
  | JNull
  | JStr (s : string)
  | JArr (l : list JsVal)
  | JObj (m : gmap string JsVal)
  | JFun (name : string).

(** Result of evaluating an expression: a value, or a thrown exception. *)
Inductive outcome (A : Type) :=
  | Returned (a : A)
  | Thrown (msg : string).
Arguments Returned {A} a.
Arguments Thrown {A} msg.

#[export] Instance outcome_ret : MRet outcome := fun A a => Returned a.
#[export] Instance outcome_bind : MBind outcome := fun A B f x =>
  match x with
  | Returned a => f a
  | Thrown e => Thrown e
  end.

(** ToBoolean.  On this value type only [undefined], [null] and the empty
    string are falsy; arrays (also empty ones), objects and functions are
    truthy. *)
Definition truthy (v : JsVal) : bool :=
  match v with
  | JUndef | JNull => false
  | JStr s => negb (String.eqb s "")
  | JArr _ | JObj _ | JFun _ => true
  end.

(** [a || b] and [a && b] on values already evaluated. *)
Definition js_or (a b : JsVal) : JsVal := if truthy a then a else b.
Definition js_and (a b : JsVal) : JsVal := if truthy a then b else a.

(** Lazy forms, for a right operand that may throw. *)
Definition or_else (a b : outcome JsVal) : outcome JsVal :=
  x ← a; if truthy x then Returned x else b.
Definition and_then (a b : outcome JsVal) : outcome JsVal :=
  x ← a; if truthy x then b else Returned x.

(** Property read [v.k] for the property names the program uses.  Reading a
    property of [undefined] or [null] throws a TypeError.  An object yields
    its own property or [undefined]; none of the names read by the program is
    inherited from [Object.prototype] or [Array.prototype].  A string
    inherits the legacy method [String.prototype.link], and a function has a
    [name]. *)
Definition getp (v : JsVal) (k : string) : outcome JsVal :=
  match v with
  | JUndef | JNull => Thrown "TypeError"
  | JObj m => Returned (default JUndef (m !! k))
  | JStr _ => Returned (if String.eqb k "link" then JFun "link" else JUndef)
  | JFun n => Returned (if String.eqb k "name" then JStr n else JUndef)
  | JArr _ => Returned JUndef
  end.

(** [e.k] where [e] itself may throw. *)
Definition dot (e : outcome JsVal) (k : string) : outcome JsVal :=
  v ← e; getp v k.

(** [a[0]] on an array. *)
Definition index0 (l : list JsVal) : JsVal := default JUndef (head l).

Definition isArray (v : JsVal) : bool :=
  match v with JArr _ => true | _ => false end.

(** [x === 'literal'] *)
Definition strict_eq_str (v : JsVal) (s : string) : bool :=
  match v with JStr s' => String.eqb s' s | _ => false end.

Definition of_option (o : option string) : JsVal :=
  match o with Some s => JStr s | None => JUndef end.

End Js.
Export Js.

(** ** Strings *)

Module Str.

Definition code (c : ascii) : nat := nat_of_ascii c.

(** [\d] *)
Definition is_digit (c : ascii) : bool :=
  ((48 <=? code c) && (code c <=? 57))%nat.

(** WhiteSpace and LineTerminator code units below 256, as stripped by
    [String.prototype.trim]. *)
Definition is_space (c : ascii) : bool :=
  (((9 <=? code c) && (code c <=? 13)) || (code c =? 32) || (code c =? 160))%nat.

(** Characters that [.] does not match. *)
Definition is_line_terminator (c : ascii) : bool :=
  ((code c =? 10) || (code c =? 13))%nat.

Fixpoint filter_chars (p : ascii -> bool) (s : string) : string :=
  match s with
  | EmptyString => EmptyString
  | String c r => if p c then String c (filter_chars p r) else filter_chars p r
  end.

Fixpoint all_chars (p : ascii -> bool) (s : string) : bool :=
  match s with
  | EmptyString => true
  | String c r => p c && all_chars p r
  end.

(** [s.replace(/[^\d]/g, '')] *)
Definition digits_only (s : string) : string := filter_chars is_digit s.

Fixpoint trim_start (s : string) : string :=
  match s with
  | EmptyString => EmptyString
  | String c r => if is_space c then trim_start r else s
  end.

Fixpoint trim_end (s : string) : string :=
  match s with
  | EmptyString => EmptyString
  | String c r =>
      match trim_end r with
      | EmptyString => if is_space c then EmptyString else String c EmptyString
      | r' => String c r'
      end
  end.

(** [s.trim()] *)
Definition trim (s : string) : string := trim_end (trim_start s).

(** [s.slice(0, n)] for [n >= 0] *)
Definition slice0 (n : nat) (s : string) : string := substring 0 n s.

(** [s.includes(sub)] *)
Fixpoint includes (sub s : string) : bool :=
  String.prefix sub s ||
  match s with
  | EmptyString => false
  | String _ r => includes sub r
  end.

(** Case folding of the [i] flag on Latin-1 code units. *)
Definition fold_case (c : ascii) : ascii :=
  if ((65 <=? code c) && (code c <=? 90))%nat then ascii_of_nat (code c + 32) else c.

Fixpoint map_chars (f : ascii -> ascii) (s : string) : string :=
  match s with
  | EmptyString => EmptyString
  | String c r => String (f c) (map_chars f r)
  end.

(** [/sub/i.test(s)] for a literal [sub] in lower case. *)
Definition includes_ci (sub s : string) : bool := includes sub (map_chars fold_case s).

(** [o || ''] for [o] a string or [undefined]. *)
Definition or_empty (o : option string) : string := default "" o.

End Str.

(** ** Regular expressions

    A backtracking matcher with the priorities of ECMAScript: the left
    alternative first, greedy quantifiers, leftmost start position. *)

Module Regex.

Inductive cclass := CDot | CDigit.

Definition in_class (k : cclass) (c : ascii) : bool :=
  match k with
  | CDot => negb (Str.is_line_terminator c)
  | CDigit => Str.is_digit c
  end.

Inductive re :=
  | Lit (s : string)
  | Star (k : cclass)
  | Plus (k : cclass)
  | Seq (r1 r2 : re)
  | Alt (r1 r2 : re)
  | Group (n : nat) (r : re).

Definition captures := gmap nat string.

Fixpoint strip_prefix (p s : string) : option string :=
  match p, s with
  | EmptyString, _ => Some s
  | String a p', String b s' => if Ascii.eqb a b then strip_prefix p' s' else None
  | String _ _, EmptyString => None
  end.

(** Greedy [k*]: take one more character when possible, and give it back
    when the continuation fails. *)
Fixpoint star {A} (k : cclass) (s : string) (cont : string -> option A) : option A :=
  match s with
  | String c r =>
      if in_class k c then
        match star k r cont with
        | Some x => Some x
        | None => cont s
        end
      else cont s
  | EmptyString => cont s
  end.

Definition consumed (s rest : string) : string :=
  substring 0 (String.length s - String.length rest) s.

Fixpoint run (r : re) (s : string) (caps : captures)
    (cont : string -> captures -> option captures) : option captures :=
  match r with
  | Lit p =>
      match strip_prefix p s with
      | Some rest => cont rest caps
      | None => None
      end
  | Star k => star k s (fun rest => cont rest caps)
  | Plus k =>
      match s with
      | String c rest =>
          if in_class k c then star k rest (fun rest' => cont rest' caps) else None
      | EmptyString => None
      end
  | Seq r1 r2 => run r1 s caps (fun rest caps' => run r2 rest caps' cont)
  | Alt r1 r2 =>
      match run r1 s caps cont with
      | Some x => Some x
      | None => run r2 s caps cont
      end
  | Group n r1 =>
      run r1 s caps (fun rest caps' => cont rest (<[n := consumed s rest]> caps'))
  end.

(** [s.match(r)] for a regular expression without the [g] flag: [None] is
    [null], and [Some caps] gives the capture groups that took part. *)
Fixpoint js_match (r : re) (s : string) : option captures :=
  match run r s ∅ (fun _ caps => Some caps) with
  | Some caps => Some caps
  | None =>
      match s with
      | EmptyString => None
      | String _ rest => js_match r rest
      end
  end.

(** [m[n]] *)
Definition group (m : captures) (n : nat) : JsVal := of_option (m !! n).

End Regex.

Import Str Regex.

(** ** Records of the pipeline *)

(** The compact object built by [normalizeBggApi]. *)
Module Item.
Record t := mk {
  bgg_id : JsVal;
  name : JsVal;
  year : JsVal;
  description : JsVal;
  min_players : JsVal;
  max_players : JsVal;
  playing_time : JsVal;
  designers : list JsVal;
  mechanics : list JsVal;
  categories : list JsVal;
  geek_rating : JsVal;
  avg_rating : JsVal;
  num_voters : JsVal
}.
End Item.

(** The [record] object of a game page.  A key that the object does not
    hold reads as [undefined]: the HTML extraction sets no [geek_rating]. *)
Module Game.
Record t := mk {
  name : JsVal;
  bgg_id : JsVal;
  year : JsVal;
  avg_rating : JsVal;
  num_voters : JsVal;
  designers : list JsVal;
  mechanics : list JsVal;
  categories : list JsVal;
  description : JsVal;
  url : JsVal;
  extracted_at : JsVal;
  geek_rating : JsVal
}.
End Game.

(** The [rowRecord] object of a listing row; [url] is [null] when the link
    does not resolve. *)
Module RowRecord.
Record t := mk {
  name : JsVal;
  url : JsVal;
  rank : JsVal;
  hotness : JsVal;
  source_page : JsVal;
  extracted_at : JsVal
}.
End RowRecord.

(** ** normalizeBggApi *)

(** [c ? a : b] *)
Definition cond (c a b : outcome JsVal) : outcome JsVal :=
  x ← c; if truthy x then a else b.

(** The three arrays that the loop over the links fills. *)
Record Links := mkLinks {
  l_designers : list JsVal;
  l_mechanics : list JsVal;
  l_categories : list JsVal
}.

(** [Array.isArray(t.link) ? t.link : (t.link ? [t.link] : [])] *)
Definition links_of (tlink : JsVal) : list JsVal :=
  match tlink with
  | JArr l => l
  | _ => if truthy tlink then [tlink] else []
  end.

(** One iteration of [for (const l of links)]. *)
Definition add_link (acc : Links) (l : JsVal) : outcome Links :=
  if negb (truthy l) then Returned acc
  else
    type ← getp l "type";
    value ← or_else (or_else (getp l "value") (getp l "name")) (Returned (JStr ""));
    let acc1 :=
      if strict_eq_str type "boardgamedesigner"
      then mkLinks (l_designers acc ++ [value]) (l_mechanics acc) (l_categories acc)
      else acc in
    let acc2 :=
      if strict_eq_str type "boardgamemechanic"
      then mkLinks (l_designers acc1) (l_mechanics acc1 ++ [value]) (l_categories acc1)
      else acc1 in
    let acc3 :=
      if strict_eq_str type "boardgamecategory"
      then mkLinks (l_designers acc2) (l_mechanics acc2) (l_categories acc2 ++ [value])
      else acc2 in
    Returned acc3.

Fixpoint add_links (acc : Links) (links : list JsVal) : outcome Links :=
  match links with
  | [] => Returned acc
  | l :: rest => acc' ← add_link acc l; add_links acc' rest
  end.

Definition normalizeBggApi (json : JsVal) : outcome (option Item.t) :=
  if negb (truthy json) then Returned None
  else
    t ← getp json "thing";
    if negb (truthy t) then Returned None
    else
      let T := Returned t in
      let stats := dot T "statistics" in
      let ratings := dot stats "ratings" in
      bgg_id ← dot T "id";
      tname ← dot T "name";
      name ← match tname with
              | JArr l => getp (index0 l) "value"
              | _ => or_else (and_then (dot T "name") (dot (dot T "name") "value"))
                             (Returned (JStr ""))
              end;
      year ← cond (dot T "yearpublished") (dot (dot T "yearpublished") "value")
                  (Returned (JStr ""));
      description ← cond (dot T "description") (dot T "description") (Returned (JStr ""));
      min_players ← cond (dot T "minplayers") (dot (dot T "minplayers") "value")
                         (Returned (JStr ""));
      max_players ← cond (dot T "maxplayers") (dot (dot T "maxplayers") "value")
                         (Returned (JStr ""));
      playing_time ← cond (dot T "playingtime") (dot (dot T "playingtime") "value")
                          (Returned (JStr ""));
      geek_rating ← cond (and_then (and_then stats ratings) (dot ratings "ranks"))
                         (dot (dot ratings "ranks") "rank") (Returned JNull);
      avg_rating ← cond (and_then stats ratings) (dot ratings "average") (Returned JNull);
      num_voters ← cond (and_then stats ratings) (dot ratings "usersrated") (Returned JNull);
      tlink ← dot T "link";
      acc ← add_links (mkLinks [] [] []) (links_of tlink);
      Returned (Some (Item.mk bgg_id name year description min_players max_players
                              playing_time (l_designers acc) (l_mechanics acc)
                              (l_categories acc) geek_rating avg_rating num_voters)).

(** ** Reconciliation: the [Object.assign] of the game-page handlers *)

(** [a && a.length ? a : b] for an array [a]. *)
Definition nonempty_or (a b : list JsVal) : list JsVal :=
  if truthy (JArr a) && negb (List.length a =? 0)%nat then a else b.

Definition assign (record : Game.t) (normalized : Item.t) : Game.t :=
  {| Game.name := Game.name record;
     Game.bgg_id := Game.bgg_id record;
     Game.year := Game.year record;
     Game.avg_rating := js_or (Item.avg_rating normalized) (Game.avg_rating record);
     Game.num_voters := js_or (Item.num_voters normalized) (Game.num_voters record);
     Game.designers := nonempty_or (Item.designers normalized) (Game.designers record);
     Game.mechanics := nonempty_or (Item.mechanics normalized) (Game.mechanics record);
     Game.categories := nonempty_or (Item.categories normalized) (Game.categories record);
     Game.description := Game.description record;
     Game.url := Game.url record;
     Game.extracted_at := Game.extracted_at record;
     Game.geek_rating :=
       js_or (js_or (Item.geek_rating normalized) (Game.geek_rating record)) (JStr "") |}.

(** [if (normalized) { Object.assign(record, ...) }] *)
Definition merge (record : Game.t) (normalized : option Item.t) : Game.t :=
  match normalized with
  | Some n => assign record n
  | None => record
  end.

(** The record after enrichment with the parsed API response [apiJson]
    ([null] when [fetchBggApi] failed). *)
Definition reconcile (record : Game.t) (apiJson : JsVal) : outcome Game.t :=
  normalized ← normalizeBggApi apiJson;
  Returned (merge record normalized).

(** ** Cheerio *)

(** The selectors of the program. *)
Inductive selector :=
  | SelTitle        (* #mainbody h1, .game-title, .header-title *)
  | SelOgTitle      (* meta[property=og:title] *)
  | SelCanonical    (* link[rel=canonical] *)
  | SelOgUrl        (* meta[name=og:url] *)
  | SelRating       (* .gameplay .rating .rating-value, .game_rating .value *)
  | SelRatingsLink  (* a[href$=/ratings] *)
  | SelYear         (* .gameplay .year, .game-title .year *)
  | SelDesigners    (* .gameplay .designer a, .wiki_rightcol a[href*=designer] *)
  | SelMechanics    (* a[href*=/boardgamemechanic/], .gameplay .mechanic a *)
  | SelCategories   (* a[href*=/boardgamecategory/], .gameplay .category a *)
  | SelDescription  (* #mainbody #description, #overview, .game-description *)
  | SelRows         (* .collection_table tr, .table tr, .ranked-item, .hot-item *)
  | SelItemLink     (* a[href*=/boardgame/], a[href*=/thing/] *)
  | SelRank         (* .collection_rank, .rank *)
  | SelHotness.     (* .hotness, .post_hotness, .rank_change *)

(** An element as the program sees it: its text, its attributes, and the
    elements that [find] selects below it, in document order. *)
Inductive Elem :=
  | mkElem (el_text : string) (el_attrs : gmap string string)
           (el_find : selector -> list Elem).

Definition el_text (e : Elem) : string := let (t, _, _) := e in t.
Definition el_attrs (e : Elem) : gmap string string := let (_, a, _) := e in a.
Definition el_find (e : Elem) : selector -> list Elem := let (_, _, f) := e in f.

(** A loaded document is the query function [$], here [dollar]. *)
Definition Cheerio := selector -> list Elem.

Definition first (sel : list Elem) : list Elem := take 1 sel.

(** [.text()]: the texts of the selected elements, concatenated. *)
Definition text (sel : list Elem) : string :=
  foldr (fun e acc => el_text e +:+ acc) "" sel.

(** [.attr(name)]: the attribute of the first selected element, or
    [undefined]. *)
Definition attr (name : string) (sel : list Elem) : option string :=
  e ← head sel; el_attrs e !! name.

(** [.map((i, el) => $(el).text().trim()).get()] *)
Definition map_trimmed_text (sel : list Elem) : list JsVal :=
  (fun e => JStr (trim (el_text e))) <$> sel.

(** ** Requests *)

Record UserData := mkUserData { startHost : option string }.

Record Request := mkRequest {
  url : string;
  loadedUrl : option string;
  userData : UserData
}.

(** [request.loadedUrl ?? request.url] *)
Definition page_url (request : Request) : string :=
  default (url request) (loadedUrl request).

(** ** HTML field extraction (the first part of extractGameFromPageCheerio) *)

(** The pattern of the canonical link: [\/boardgame\/] [(?: .* )] [\/(\d+)],
    or else [\/boardgame\/(\d+)]. *)
Definition re_canonical : re :=
  Alt (Seq (Lit "/boardgame/") (Seq (Star CDot) (Seq (Lit "/") (Group 1 (Plus CDigit)))))
      (Seq (Lit "/boardgame/") (Group 2 (Plus CDigit))).

(** The pattern of the metadata tag: [\/boardgame\/] [(?: .* )] [\/(\d+)]. *)
Definition re_meta : re :=
  Seq (Lit "/boardgame/") (Seq (Star CDot) (Seq (Lit "/") (Group 1 (Plus CDigit)))).

(** The identifier read from the canonical link: [bggId] after the first
    [if]. *)
Definition id_from_canonical (canonical : string) : JsVal :=
  if truthy (JStr canonical) then
    match js_match re_canonical canonical with
    | Some m => js_or (js_or (group m 1) (group m 2)) (JStr "")
    | None => JStr ""
    end
  else JStr "".

(** The identifier read from the metadata tag when the canonical link gave
    the falsy [bggId]. *)
Definition id_from_meta (bggId : JsVal) (metaId : string) : JsVal :=
  match js_match re_meta metaId with
  | Some m2 => group m2 1
  | None => bggId
  end.

Definition extract_bggId (dollar : Cheerio) : JsVal :=
  let canonical := or_empty (attr "href" (dollar SelCanonical)) in
  let bggId := id_from_canonical canonical in
  if negb (truthy bggId)
  then id_from_meta bggId (or_empty (attr "content" (dollar SelOgUrl)))
  else bggId.

Definition extract (dollar : Cheerio) (request : Request) (now : string) : Game.t :=
  let name :=
    js_or (js_or (JStr (trim (text (first (dollar SelTitle)))))
                 (of_option (attr "content" (dollar SelOgTitle))))
          (JStr "") in
  let bggId := extract_bggId dollar in
  let avgRating := js_or (JStr (trim (text (first (dollar SelRating))))) (JStr "") in
  let numVoters := js_or (JStr (digits_only (text (first (dollar SelRatingsLink))))) (JStr "") in
  let year := js_or (JStr (digits_only (text (first (dollar SelYear))))) (JStr "") in
  let designers := map_trimmed_text (dollar SelDesigners) in
  let mechanics := map_trimmed_text (dollar SelMechanics) in
  let categories := map_trimmed_text (dollar SelCategories) in
  let description :=
    js_or (JStr (slice0 2000 (trim (text (first (dollar SelDescription)))))) (JStr "") in
  {| Game.name := name;
     Game.bgg_id := js_or bggId (JStr "");
     Game.year := year;
     Game.avg_rating := js_or avgRating (JStr "");
     Game.num_voters := js_or numVoters (JStr "");
     Game.designers := designers;
     Game.mechanics := mechanics;
     Game.categories := categories;
     Game.description := description;
     Game.url := JStr (page_url request);
     Game.extracted_at := JStr now;
     Game.geek_rating := JUndef |}.

(** ** Effects: the trace of a handler and its result *)

Inductive DatasetItem :=
  | ItemGame (record : Game.t)
  | ItemRow (rowRecord : RowRecord.t).

Inductive Event :=
  | LogInfo (msg : string) (url : string)
  | LogWarning (msg : string) (bggId : JsVal) (error : string)
  | Fetch (url : string)
  | KvSet (key : string) (value : JsVal) (contentType : string)
  | Push (item : DatasetItem)
  | Enqueue (r : Request).

Record Run (A : Type) := mkRun { trace : list Event; result : outcome A }.
Arguments mkRun {A} trace result.
Arguments trace {A} r.
Arguments result {A} r.

#[export] Instance run_ret : MRet Run := fun A a => mkRun [] (Returned a).
#[export] Instance run_bind : MBind Run := fun A B f x =>
  match result x with
  | Returned a => mkRun (trace x ++ trace (f a)) (result (f a))
  | Thrown e => mkRun (trace x) (Thrown e)
  end.

Definition emit (e : Event) : Run unit := mkRun [e] (Returned tt).
Definition lift {A} (o : outcome A) : Run A := mkRun [] o.
Definition throw {A} (msg : string) : Run A := mkRun [] (Thrown msg).

(** What the outside world answers. *)
Inductive FetchResult :=
  | FetchThrows
  | FetchResponse (ok : bool) (body : option string).

Record Env := mkEnv {
  (** [fetch(url)]; the body is [None] when [res.text()] rejects *)
  fetch : string -> FetchResult;
  (** [parser.parseStringPromise(text)]; [None] when it rejects *)
  parseStringPromise : string -> option JsVal;
  (** [kv.setValue(key, value, ...)]; [Some message] when it throws an
      [Error] with that message *)
  kv_setValue : string -> JsVal -> option string;
  (** [dataset.pushData(item)]; [Some message] when it rejects *)
  dataset_pushData : DatasetItem -> option string;
  (** [new Date().toISOString()] at the n-th reading of a handler *)
  now : nat -> string
}.

(** The recognized options of the actor input. *)
Record Input := mkInput {
  startUrls : list string;
  useBggApi : bool;
  followInternalOnly : bool
}.

(** ToString, for template literals. *)
Fixpoint to_str (v : JsVal) : string :=
  match v with
  | JUndef => "undefined"
  | JNull => "null"
  | JStr s => s
  | JArr l =>
      (fix join (l : list JsVal) : string :=
         match l with
         | [] => ""
         | x :: r =>
             let sx := match x with JUndef | JNull => "" | _ => to_str x end in
             match r with [] => sx | _ => sx +:+ "," +:+ join r end
         end) l
  | JObj _ => "[object Object]"
  | JFun n => "function " +:+ n +:+ "() { [native code] }"
  end.

(** [encodeURIComponent] *)
Definition unreserved (c : ascii) : bool :=
  let n := code c in
  (((65 <=? n) && (n <=? 90)) || ((97 <=? n) && (n <=? 122)) || is_digit c
   || (n =? 45) || (n =? 95) || (n =? 46) || (n =? 33) || (n =? 126)
   || (n =? 42) || (n =? 39) || (n =? 40) || (n =? 41))%nat.

Definition hex_digit (n : nat) : ascii :=
  ascii_of_nat (if (n <? 10)%nat then 48 + n else 55 + n).

Definition percent (byte : nat) : string :=
  String "%" (String (hex_digit (byte / 16)) (String (hex_digit (byte mod 16)) "")).

Definition encode_char (c : ascii) : string :=
  let n := code c in
  if unreserved c then String c ""
  else if (n <? 128)%nat then percent n
  else percent (192 + n / 64) +:+ percent (128 + n mod 64).

Fixpoint encodeURIComponent (s : string) : string :=
  match s with
  | EmptyString => ""
  | String c r => encode_char c +:+ encodeURIComponent r
  end.

(** ** fetchBggApi *)

Definition api_url (bggId : JsVal) : string :=
  "https://boardgamegeek.com/xmlapi2/thing?id=" +:+ encodeURIComponent (to_str bggId)
  +:+ "&stats=1".

(** The value that [fetchBggApi] returns: every failure inside its [try]
    becomes [null]. *)
Definition api_response (env : Env) (bggId : JsVal) : JsVal :=
  match fetch env (api_url bggId) with
  | FetchThrows => JNull
  | FetchResponse ok body =>
      if negb ok then JNull
      else match body with
           | None => JNull
           | Some text => default JNull (parseStringPromise env text)
           end
  end.

Definition fetchBggApi (env : Env) (bggId : JsVal) : Run JsVal :=
  emit (Fetch (api_url bggId));;
  mret (api_response env bggId).

(** ** extractGameFromPageCheerio *)

Definition kv_key (bggId : JsVal) : string := "games/" +:+ to_str bggId.

(** The [try { await kv.setValue(...) } catch (e) { log.warning(...) }]. *)
Definition store_raw (env : Env) (bggId apiJson : JsVal) : Run unit :=
  emit (KvSet (kv_key bggId) apiJson "application/json");;
  match kv_setValue env (kv_key bggId) apiJson with
  | None => mret tt
  | Some message => emit (LogWarning "Failed to save BGG API JSON to KV" bggId message)
  end.

(** [await dataset.pushData(item)], outside any [try]. *)
Definition pushData (env : Env) (item : DatasetItem) : Run unit :=
  emit (Push item);;
  match dataset_pushData env item with
  | None => mret tt
  | Some message => throw message
  end.

(** The block [if (useBggApi && bggId) { ... }]. *)
Definition enrich (input : Input) (env : Env) (bggId : JsVal) (record : Game.t)
    : Run Game.t :=
  if useBggApi input && truthy bggId then
    apiJson ← fetchBggApi env bggId;
    normalized ← lift (normalizeBggApi apiJson);
    match normalized with
    | Some n => store_raw env bggId apiJson;; mret (assign record n)
    | None => mret record
    end
  else mret record.

Definition extractGameFromPageCheerio (input : Input) (env : Env)
    (request : Request) (dollar : Cheerio) : Run Game.t :=
  emit (LogInfo "Extracting game page (cheerio)" (page_url request));;
  record ← enrich input env (extract_bggId dollar) (extract dollar request (now env 0));
  pushData env (ItemGame record);;
  mret record.

(** ** URLs *)

(** A parsed URL, as far as the program reads it: the [host] getter, and the
    serialization, which is the scheme, a colon, and the rest. *)
Record URL := mkURL {
  scheme : string;
  host : string;
  after_scheme : string
}.

Definition toString (u : URL) : string := scheme u +:+ ":" +:+ after_scheme u.

Section Crawler.

(** [new URL(input)] and [new URL(input, base)]; [None] when the constructor
    throws a TypeError. *)
Variable new_URL : string -> option string -> option URL.

(** [resolveUrl(base, href)] *)
Definition resolveUrl (base href : string) : JsVal :=
  match new_URL href (Some base) with
  | Some u => JStr (toString u)
  | None => JNull
  end.

(** *** Rows of a listing page *)

(** The [rowRecord] of one iteration of the loop over the rows. *)
Definition rowRecord (url : string) (now : string) (row : Elem) : RowRecord.t :=
  let link := attr "href" (first (el_find row SelItemLink)) in
  let abs := if truthy (of_option link) then resolveUrl url (or_empty link) else JNull in
  let name := js_or (JStr (trim (text (first (el_find row SelItemLink))))) (JStr "") in
  let rankText :=
    js_or (JStr (digits_only (trim (text (first (el_find row SelRank)))))) (JStr "") in
  let hotness := js_or (JStr (trim (text (first (el_find row SelHotness))))) (JStr "") in
  {| RowRecord.name := name;
     RowRecord.url := abs;
     RowRecord.rank := js_or rankText (JStr "");
     RowRecord.hotness := js_or hotness (JStr "");
     RowRecord.source_page := JStr url;
     RowRecord.extracted_at := JStr now |}.

(** The loop over the rows, from the [i]-th reading of the clock on: a row
    with a truthy [abs] is handed to the dataset, and a rejected push ends
    the loop. *)
Fixpoint push_rows (env : Env) (url : string) (i : nat) (rows : list Elem) : Run unit :=
  match rows with
  | [] => mret tt
  | row :: rest =>
      let r := rowRecord url (now env i) row in
      (if truthy (RowRecord.url r) then pushData env (ItemRow r) else mret tt);;
      push_rows env url (S i) rest
  end.

(** *** The link filter *)

(** [request.userData.startHost || new URL(request.url).host]; [None] when
    the constructor throws. *)
Definition start_host (request : Request) : option string :=
  match startHost (userData request) with
  | Some h => if truthy (JStr h) then Some h else host <$> new_URL (url request) None
  | None => host <$> new_URL (url request) None
  end.

(** The [transformRequestFunction] of a page reached by [request]: [None]
    is [null], the candidate is dropped. *)
Definition transformRequestFunction (input : Input) (request r : Request)
    : option Request :=
  if followInternalOnly input then
    match start_host request with
    | None => None
    | Some sh =>
        match new_URL (url r) None with
        | None => None
        | Some u => if negb (String.eqb (host u) sh) then None else Some r
        end
    end
  else Some r.

(** [enqueueLinks({ globs, transformRequestFunction, userData })]: the crawler
    builds one request per link of the page that the globs accept, with the
    [userData] of the call (empty when the call names none), and enqueues
    those that the transform function keeps. *)
Definition enqueueLinks (links : list string) (ud : UserData)
    (transform : Request -> option Request) : Run unit :=
  mkRun (Enqueue <$> omap (fun l => transform (mkRequest l None ud)) links) (Returned tt).

(** *** listingPageHandler *)

Definition listingPageHandler (input : Input) (env : Env) (request : Request)
    (dollar : Cheerio) (links : list string) : Run unit :=
  let url := page_url request in
  emit (LogInfo "Processing listing" url);;
  enqueueLinks links (mkUserData None) (transformRequestFunction input request);;
  push_rows env url 0 (dollar SelRows).

(** The listing branch of the Playwright crawler: the same filter, and the
    start host handed on in the [userData] of the enqueued requests. *)
Definition listing_playwright (input : Input) (request : Request) (links : list string)
    : Run unit :=
  match start_host request with
  | Some sh =>
      enqueueLinks links (mkUserData (Some sh)) (transformRequestFunction input request)
  | None => throw "TypeError"
  end.

(** *** requestHandler *)

(** The test of the page classifier: the URL holds [/boardgame/] or
    [/thing/], in any case. *)
Definition is_game_page (url : string) : bool :=
  includes_ci "/boardgame/" url || includes_ci "/thing/" url.

Definition requestHandler (input : Input) (env : Env) (request : Request)
    (dollar : Cheerio) (links : list string) : Run unit :=
  if is_game_page (page_url request)
  then extractGameFromPageCheerio input env request dollar;; mret tt
  else listingPageHandler input env request dollar links.

(** *** Start requests *)

Definition startRequest (u : string) : Request :=
  match new_URL u None with
  | Some p => mkRequest u None (mkUserData (Some (host p)))
  | None => mkRequest u None (mkUserData None)
  end.

Definition startRequests (input : Input) : list Request :=
  startRequest <$> startUrls input.

(** *** The crawl *)

(** The crawler loads an enqueued request, possibly through redirects, and
    hands it to the handler with [loadedUrl] set. *)
Definition loaded (r : Request) (final : option string) : Request :=
  mkRequest (url r) final (userData r).

(** One hop: [child] is visited because the listing branch that handled
    [request] enqueued it, under the Cheerio crawler ([hop_cheerio]) or under
    the Playwright crawler ([hop_playwright]). *)
Inductive hop (input : Input) (request : Request) : Request -> Prop :=
  | hop_cheerio link child final :
      is_game_page (page_url request) = false ->
      transformRequestFunction input request (mkRequest link None (mkUserData None))
        = Some child ->
      hop input request (loaded child final)
  | hop_playwright link sh child final :
      is_game_page (page_url request) = false ->
      start_host request = Some sh ->
      transformRequestFunction input request (mkRequest link None (mkUserData (Some sh)))
        = Some child ->
      hop input request (loaded child final).

(** Pages reached from the seed URL [u]. *)
Definition reached (input : Input) (u : string) (q : Request) : Prop :=
  exists final, rtc (hop input) (loaded (startRequest u) final) q.

End Crawler.

(** ** The Playwright crawler *)

(** The selectors of [extractGameFromPagePlaywright]. *)
Inductive pw_selector :=
  | PwTitle         (* #mainbody h1, .game-title *)
  | PwCanonical     (* link[rel=canonical] *)
  | PwRating        (* .gameplay .rating .rating-value *)
  | PwRatingsLink   (* a[href$=/ratings] *)
  | PwYear          (* .gameplay .year, .game-title .year *)
  | PwDesigners     (* .gameplay .designer a, .wiki_rightcol a[href*=designer] *)
  | PwMechanics     (* a[href*=/boardgamemechanic/], .gameplay .mechanic a *)
  | PwCategories    (* a[href*=/boardgamecategory/], .gameplay .category a *)
  | PwDescription.  (* #mainbody #description, #overview, .game-description *)

(** What a rendered page answers.  A promise that rejects, as when no
    element shows up before the timeout, is [None]. *)
Record Page := mkPage {
  (** [page.locator(sel).first().innerText()] *)
  innerText : pw_selector -> option string;
  (** [page.locator(sel).first().getAttribute(name)]; [Some None] is the
      [null] of an element without the attribute *)
  getAttribute : pw_selector -> string -> option (option string);
  (** the [innerText] of the elements that [page.$$eval(sel, ...)] maps over *)
  eval_innerText : pw_selector -> option (list string)
}.

(** [await p.catch(() => '')] on a promise of a string *)
Definition caught (o : option string) : string := default "" o.

(** [await page.locator(sel).first().getAttribute(name).catch(() => '') || ''] *)
Definition attribute_or_empty (page : Page) (sel : pw_selector) (name : string) : string :=
  match getAttribute page sel name with
  | Some (Some v) => v
  | Some None => ""
  | None => ""
  end.

(** [await page.$$eval(sel, els => els.map(e => e.innerText.trim())).catch(() => [])] *)
Definition eval_trimmed (page : Page) (sel : pw_selector) : list JsVal :=
  match eval_innerText page sel with
  | Some texts => (fun t => JStr (trim t)) <$> texts
  | None => []
  end.

Definition playwright_bggId (page : Page) : JsVal :=
  id_from_canonical (attribute_or_empty page PwCanonical "href").

Definition extract_playwright (page : Page) (request : Request) (now : string) : Game.t :=
  let name := js_or (JStr (caught (innerText page PwTitle))) (JStr "") in
  let bggId := playwright_bggId page in
  let avgRating := js_or (JStr (trim (caught (innerText page PwRating)))) (JStr "") in
  let numVoters :=
    js_or (JStr (digits_only (caught (innerText page PwRatingsLink)))) (JStr "") in
  let year := js_or (JStr (digits_only (caught (innerText page PwYear)))) (JStr "") in
  let designers := eval_trimmed page PwDesigners in
  let mechanics := eval_trimmed page PwMechanics in
  let categories := eval_trimmed page PwCategories in
  let description :=
    js_or (JStr (slice0 2000 (caught (innerText page PwDescription)))) (JStr "") in
  {| Game.name := name;
     Game.bgg_id := js_or bggId (JStr "");
     Game.year := year;
     Game.avg_rating := js_or avgRating (JStr "");
     Game.num_voters := js_or numVoters (JStr "");
     Game.designers := designers;
     Game.mechanics := mechanics;
     Game.categories := categories;
     Game.description := description;
     Game.url := JStr (page_url request);
     Game.extracted_at := JStr now;
     Game.geek_rating := JUndef |}.

(** The wait for the network to be idle is caught both ways and leaves no
    trace; the enrichment block is the one of the Cheerio handler. *)
Definition extractGameFromPagePlaywright (input : Input) (env : Env)
    (request : Request) (page : Page) : Run Game.t :=
  emit (LogInfo "Extracting game page (playwright)" (page_url request));;
  record ← enrich input env (playwright_bggId page)
                  (extract_playwright page request (now env 0));
  pushData env (ItemGame record);;
  mret record.

Section PlaywrightCrawler.

Variable new_URL : string -> option string -> option URL.

(** The [requestHandler] of the Playwright crawler. *)
Definition requestHandler_playwright (input : Input) (env : Env) (request : Request)
    (page : Page) (links : list string) : Run unit :=
  if is_game_page (page_url request)
  then extractGameFromPagePlaywright input env request page;; mret tt
  else listing_playwright new_URL input request links.

(** One hop of the Playwright crawler. *)
Inductive hop_pw (input : Input) (request : Request) : Request -> Prop :=
  | hop_pw_intro link sh child final :
      is_game_page (page_url request) = false ->
      start_host new_URL request = Some sh ->
      transformRequestFunction new_URL input request
        (mkRequest link None (mkUserData (Some sh))) = Some child ->
      hop_pw input request (loaded child final).

(** Pages that the Playwright crawler reaches from the seed URL [u]. *)
Definition reached_pw (input : Input) (u : string) (q : Request) : Prop :=
  exists final, rtc (hop_pw input) (loaded (startRequest new_URL u) final) q.

End PlaywrightCrawler.

(** * Vocabulary of the properties, and sample pages *)

(** The parsed response is [null], or it holds no truthy [thing]. *)
Definition lacks_item (apiJson : JsVal) : bool :=
  negb (truthy apiJson) ||
  match getp apiJson "thing" with
  | Returned t => negb (truthy t)
  | Thrown _ => true
  end.

(** The request failed, was answered with a non-success status, or its body
    could not be read or parsed. *)
Definition fetch_failed (env : Env) (bggId : JsVal) : bool :=
  match fetch env (api_url bggId) with
  | FetchThrows => true
  | FetchResponse ok body =>
      negb ok ||
      match body with
      | None => true
      | Some text => bool_decide (parseStringPromise env text = None)
      end
  end.

(** A payload with an item, used by the examples below. *)
Definition sample_thing : gmap string JsVal :=
  <["id" := JStr "42"]> (<["name" := JObj (<["value" := JStr "Azul"]> ∅)]> ∅).

Definition sample_json : JsVal := JObj (<["thing" := JObj sample_thing]> ∅).

Definition empty_doc : Cheerio := fun _ => [].

Definition sample_request : Request :=
  mkRequest "https://boardgamegeek.com/boardgame/42/azul" None (mkUserData None).

(** A world in which the API cannot be reached, and the response of the API
    that is still preparing the item: parsed, but without a [thing]. *)
Definition offline_env : Env :=
  mkEnv (fun _ => FetchThrows) (fun _ => None) (fun _ _ => None) (fun _ => None)
        (fun _ => "2024-01-01T00:00:00.000Z").

Definition processing_json : JsVal :=
  JObj (<["message" := JStr "Your request has been accepted"]> ∅).

(** The record of a page on which no selector matches. *)
Definition bare_record : Game.t := extract empty_doc sample_request "2024-01-01T00:00:00.000Z".

(** A payload whose only link names a designer, and an HTML record that
    holds two designers. *)
Definition alice_json : JsVal :=
  JObj (<["thing" := JObj (<["link" :=
    JObj (<["type" := JStr "boardgamedesigner"]> (<["value" := JStr "Alice"]> ∅))]> ∅)]> ∅).

Definition bob_alice_record : Game.t :=
  Game.mk (JStr "Azul") (JStr "42") (JStr "2017") (JStr "") (JStr "")
          [JStr "Bob"; JStr "Alice"] [JStr "Tiles"] [] (JStr "") (JStr "u") (JStr "t") JUndef.

(** A payload with the statistics subtree of one item. *)
Definition rated_json : JsVal :=
  JObj (<["thing" := JObj (<["statistics" := JObj (<["ratings" :=
    JObj (<["average" := JObj (<["value" := JStr "7.8"]> ∅)]> ∅)]> ∅)]> ∅)]> ∅).

(** The total property read: [undefined] where the read would throw. *)
Definition get (v : JsVal) (k : string) : JsVal :=
  match getp v k with
  | Returned w => w
  | Thrown _ => JUndef
  end.

(** The payload [json] with the item [t] whose [link] is [tlink]. *)
Definition with_link (json t : gmap string JsVal) (tlink : JsVal) : JsVal :=
  JObj (<["thing" := JObj (<["link" := tlink]> t)]> json).

Definition link_type (l : gmap string JsVal) : JsVal := default JUndef (l !! "type").

(** [l.value || l.name || ''] *)
Definition link_value (l : gmap string JsVal) : JsVal :=
  js_or (js_or (default JUndef (l !! "value")) (default JUndef (l !! "name"))) (JStr "").

(** What one link object adds to the three collections. *)
Definition push_link (acc : Links) (l : gmap string JsVal) : Links :=
  mkLinks
    (l_designers acc ++
       if strict_eq_str (link_type l) "boardgamedesigner" then [link_value l] else [])
    (l_mechanics acc ++
       if strict_eq_str (link_type l) "boardgamemechanic" then [link_value l] else [])
    (l_categories acc ++
       if strict_eq_str (link_type l) "boardgamecategory" then [link_value l] else []).

Definition designer_link : gmap string JsVal :=
  <["type" := JStr "boardgamedesigner"]> (<["value" := JStr "Alice"]> ∅).

Definition is_string (v : JsVal) : bool :=
  match v with JStr _ => true | _ => false end.

(** A string, [undefined] or [null]. *)
Definition stringish (v : JsVal) : bool :=
  match v with JStr _ | JUndef | JNull => true | _ => false end.

Definition leaf (text : string) (attrs : gmap string string) : Elem :=
  mkElem text attrs (fun _ => []).

(** A page whose only match is a title metadata tag with a blank content. *)
Definition blank_title_doc : Cheerio := fun sel =>
  match sel with
  | SelOgTitle => [leaf "" (<["content" := " "]> ∅)]
  | _ => []
  end.

(** A page with the canonical link of an item, and a page that carries the
    same URL in the metadata tag only. *)
Definition canonical_doc (href : string) : Cheerio := fun sel =>
  match sel with
  | SelCanonical => [leaf "" (<["href" := href]> ∅)]
  | _ => []
  end.

Definition meta_doc (content : string) : Cheerio := fun sel =>
  match sel with
  | SelOgUrl => [leaf "" (<["content" := content]> ∅)]
  | _ => []
  end.

(** The writes to the key-value store that a trace attempts. *)
Definition kv_writes (t : list Event) : list (string * JsVal * string) :=
  omap (fun e => match e with KvSet k v c => Some (k, v, c) | _ => None end) t.

(** The items that a trace hands to the dataset. *)
Definition pushes (t : list Event) : list DatasetItem :=
  omap (fun e => match e with Push i => Some i | _ => None end) t.

(** The same world with another key-value store. *)
Definition with_kv (env : Env) (kv : string -> JsVal -> option string) : Env :=
  mkEnv (fetch env) (parseStringPromise env) kv (dataset_pushData env) (now env).

(** A world in which the API answers with [sample_json] and every write
    succeeds, and one in which the key-value store refuses every write. *)
Definition sample_env : Env :=
  mkEnv (fun _ => FetchResponse true (Some "<thing/>"))
        (fun _ => Some sample_json)
        (fun _ _ => None)
        (fun _ => None)
        (fun _ => "2024-01-01T00:00:00.000Z").

Definition failing_kv : string -> JsVal -> option string :=
  fun _ _ => Some "quota exceeded".

Definition sample_input : Input :=
  mkInput ["https://boardgamegeek.com/hot"] true true.

Definition item_42_doc : Cheerio :=
  canonical_doc "https://boardgamegeek.com/boardgame/42/azul".



(** The answers of the [URL] constructor on the URLs of the examples. *)
Definition sample_urls : list (string * option string * URL) :=
  [ ("https://example.test/hot", None,
     mkURL "https" "example.test" "//example.test/hot");
    ("/boardgame/42", Some "https://example.test/hot",
     mkURL "https" "example.test" "//example.test/boardgame/42");
    ("https://example.test/boardgame/42", None,
     mkURL "https" "example.test" "//example.test/boardgame/42");
    ("https://other.test/boardgame/7", None,
     mkURL "https" "other.test" "//other.test/boardgame/7") ].

Definition sample_new_URL (input : string) (base : option string) : option URL :=
  snd <$> List.find (fun e => bool_decide (e.1 = (input, base))) sample_urls.

(** Row A links to an item and carries the rank text [1.]; row B has no
    link. *)
Definition row_a : Elem :=
  mkElem "1. Azul" ∅ (fun sel =>
    match sel with
    | SelItemLink => [leaf "Azul" (<["href" := "/boardgame/42"]> ∅)]
    | SelRank => [leaf "1." ∅]
    | _ => []
    end).

Definition row_b : Elem := mkElem "advertisement" ∅ (fun _ => []).

Definition hot_doc : Cheerio := fun sel =>
  match sel with
  | SelRows => [row_a; row_b]
  | _ => []
  end.

(** The seed of the examples, and the page that its listing discovers: the
    crawler loads the item URL and is redirected to a page that is handled
    as a listing. *)
Definition hot_input : Input := mkInput ["https://example.test/hot"] true true.

Definition hot_seed : string := "https://example.test/hot".

Definition discovered_page : Request :=
  loaded (mkRequest "https://example.test/boardgame/42" None (mkUserData None))
         (Some "https://example.test/hot").


(** ** Vocabulary of the further properties *)

(** The API requests that a trace makes, and the requests it enqueues. *)
Definition fetches (t : list Event) : list string :=
  omap (fun e => match e with Fetch u => Some u | _ => None end) t.

Definition enqueued (t : list Event) : list Request :=
  omap (fun e => match e with Enqueue r => Some r | _ => None end) t.

Definition nullish (v : JsVal) : bool :=
  match v with JUndef | JNull => true | _ => false end.

(** The display values of the links of type [ty], in the order of the
    links; a falsy entry of the list is passed over. *)
Definition collect (ty : string) (links : list JsVal) : list JsVal :=
  omap (fun l =>
          if truthy l && strict_eq_str (get l "type") ty
          then Some (js_or (js_or (get l "value") (get l "name")) (JStr ""))
          else None) links.

(** A payload whose [name] is an empty array, and a world that serves it. *)
Definition unnamed_json : JsVal :=
  JObj (<["thing" := JObj (<["name" := JArr []]> ∅)]> ∅).

Definition unnamed_env : Env :=
  mkEnv (fun _ => FetchResponse true (Some "<thing/>"))
        (fun _ => Some unnamed_json)
        (fun _ _ => None)
        (fun _ => None)
        (fun _ => "2024-01-01T00:00:00.000Z").

(** An item with four entries in its links: two designers around a
    mechanic and a [null], then a publisher. *)
Definition mixed_links_json : JsVal :=
  JObj (<["thing" := JObj (<["link" := JArr [
    JObj (<["type" := JStr "boardgamedesigner"]> (<["value" := JStr "Alice"]> ∅));
    JObj (<["type" := JStr "boardgamemechanic"]> (<["value" := JStr "Drafting"]> ∅));
    JNull;
    JObj (<["type" := JStr "boardgamedesigner"]> (<["value" := JStr "Bob"]> ∅));
    JObj (<["type" := JStr "boardgamepublisher"]> (<["value" := JStr "Plan B"]> ∅))
  ]]> ∅)]> ∅).

(** The candidate [link] parses and its host is the start host of the page
    reached by [request]. *)
Definition on_start_host (new_URL : string -> option string -> option URL)
    (request : Request) (link : string) : bool :=
  match start_host new_URL request, new_URL link None with
  | Some sh, Some u => String.eqb (host u) sh
  | _, _ => false
  end.

(** The request that [enqueueLinks] builds for a link when the call names
    no [userData]. *)
Definition candidate (link : string) : Request := mkRequest link None (mkUserData None).

(** A dataset that rejects the rows of the given rank. *)
Definition rejects_rank (rank : string) (item : DatasetItem) : option string :=
  match item with
  | ItemRow r => if strict_eq_str (RowRecord.rank r) rank then Some "rejected" else None
  | ItemGame _ => None
  end.

(** The request that the Playwright listing branch builds for a link: it
    carries the start host. *)
Definition candidate_pw (sh : string) (link : string) : Request :=
  mkRequest link None (mkUserData (Some sh)).

(** A rendered page that shows nothing, and one that shows only an
    identifier-bearing canonical link. *)
Definition blank_page : Page :=
  mkPage (fun _ => None) (fun _ _ => None) (fun _ => None).

Definition canonical_page (href : string) : Page :=
  mkPage (fun _ => None)
         (fun sel name =>
            match sel with
            | PwCanonical => if String.eqb name "href" then Some (Some href) else Some None
            | _ => None
            end)
         (fun _ => None).

(** The crawl of the examples without [followInternalOnly], the links found
    on its listing page, and the listing page as the crawler hands it over. *)
Definition open_input : Input := mkInput ["https://example.test/hot"] true false.

Definition hot_links : list string :=
  ["https://example.test/boardgame/42"; "https://other.test/boardgame/7"; "not a url"].

Definition hot_request : Request := loaded (startRequest sample_new_URL hot_seed) None.

(** A listing with two rows that link to the same item, ranked 1 and 2. *)
Definition row_c : Elem :=
  mkElem "2. Azul" ∅ (fun sel =>
    match sel with
    | SelItemLink => [leaf "Azul" (<["href" := "/boardgame/42"]> ∅)]
    | SelRank => [leaf "2" ∅]
    | _ => []
    end).

Definition two_rows_doc : Cheerio := fun sel =>
  match sel with
  | SelRows => [row_a; row_c]
  | _ => []
  end.

(** The world of the examples with a dataset that rejects the rows ranked
    1. *)
Definition rejecting_env : Env :=
  mkEnv (fetch sample_env) (parseStringPromise sample_env) (kv_setValue sample_env)
        (rejects_rank "1") (now sample_env).

(** The page that the Playwright crawler discovers from the seed of the
    examples. *)
Definition discovered_page_pw : Request :=
  loaded (candidate_pw "example.test" "https://example.test/boardgame/42")
         (Some "https://example.test/hot").

(** * Properties *)

(** ** Evaluation lemmas *)

(** A bind that returns went through a first part that returned. *)
Lemma bind_inv {A B} (x : outcome A) (f : A -> outcome B) (b : B) :
  (x ≫= f) = Returned b -> exists a, x = Returned a /\ f a = Returned b.
Proof. destruct x as [a|e]; [eauto | discriminate]. Qed.

Ltac bind_inv H :=
  let a := fresh "v" in
  let Ha := fresh "Hv" in
  apply bind_inv in H; destruct H as (a & Ha & H).

(** ** The payloads that count as absent *)

Lemma normalize_lacks_item (apiJson : JsVal) :
  lacks_item apiJson = true -> normalizeBggApi apiJson = Returned None.
Proof.
  unfold lacks_item, normalizeBggApi.
  destruct (truthy apiJson) eqn:Hj; simpl; [|done].
  destruct apiJson; try discriminate; simpl; intros H;
    first [ by rewrite H | done ].
Qed.

Lemma normalize_none_lacks_item (apiJson : JsVal) :
  normalizeBggApi apiJson = Returned None -> lacks_item apiJson = true.
Proof.
  unfold lacks_item, normalizeBggApi.
  destruct (truthy apiJson) eqn:Hj; simpl; [|done].
  destruct (getp apiJson "thing") as [t|e] eqn:Ht; simpl; [|done].
  destruct (truthy t) eqn:Htt; simpl; [|done].
  intros H. exfalso.
  repeat (bind_inv H). discriminate.
Qed.

Lemma fetch_failed_null (env : Env) (bggId : JsVal) :
  fetch_failed env bggId = true -> api_response env bggId = JNull.
Proof.
  unfold fetch_failed, api_response.
  destruct (fetch env (api_url bggId)) as [|ok body]; [done|].
  destruct ok; simpl; [|done].
  destruct body as [text|]; [|done].
  intros H. apply bool_decide_eq_true in H. by rewrite H.
Qed.

Lemma fetch_failed_lacks_item (env : Env) (bggId : JsVal) :
  fetch_failed env bggId = true -> lacks_item (api_response env bggId) = true.
Proof. intros H. by rewrite (fetch_failed_null _ _ H). Qed.

(** ** C1 *)

(** The value of the enrichment block is the reconciliation with the
    response of the API. *)
Lemma enrich_result (input : Input) (env : Env) (bggId : JsVal) (record : Game.t) :
  result (enrich input env bggId record) =
    if useBggApi input && truthy bggId
    then reconcile record (api_response env bggId)
    else Returned record.
Proof.
  unfold enrich, reconcile.
  destruct (useBggApi input && truthy bggId); [|done].
  unfold mbind at 1. unfold run_bind. simpl.
  destruct (normalizeBggApi (api_response env bggId)) as [[n|]|e]; simpl; try done.
  unfold store_raw, mbind, run_bind. simpl.
  by destruct (kv_setValue env _ _).
Qed.

(** C1. When the API payload is absent, that is when the fetch failed, was
    answered with a non-success status or could not be parsed, or when the
    parsed response holds no item, the reconciled record is the HTML record
    itself. *)
Theorem reconcile_absent_identity (h : Game.t) (env : Env) (bggId apiJson : JsVal) :
  (fetch_failed env bggId = true /\ apiJson = api_response env bggId) \/
  lacks_item apiJson = true ->
  reconcile h apiJson = Returned h.
Proof.
  intros [[Hf ->] | H]; unfold reconcile.
  - by rewrite (normalize_lacks_item _ (fetch_failed_lacks_item _ _ Hf)).
  - by rewrite (normalize_lacks_item _ H).
Qed.

Lemma reconcile_absent_identity_witness :
  reconcile bare_record (api_response offline_env (JStr "42")) = Returned bare_record /\
  reconcile bare_record processing_json = Returned bare_record.
Proof.
  split.
  - apply (reconcile_absent_identity bare_record offline_env (JStr "42")).
    left. split; reflexivity.
  - apply (reconcile_absent_identity bare_record offline_env (JStr "42")).
    right. reflexivity.
Defined.

(** ** C2, C3, C4: field precedence *)

Lemma reconcile_present (h : Game.t) (apiJson : JsVal) (n : Item.t) :
  normalizeBggApi apiJson = Returned (Some n) ->
  reconcile h apiJson = Returned (assign h n).
Proof. intros H. unfold reconcile. by rewrite H. Qed.

Lemma nonempty_or_cons (x : JsVal) (a b : list JsVal) :
  nonempty_or (x :: a) b = x :: a.
Proof. reflexivity. Qed.

Lemma nonempty_or_nil (b : list JsVal) : nonempty_or [] b = b.
Proof. reflexivity. Qed.

(** C2. With a present API payload the reconciled record keeps the name,
    the year and the description of the HTML record, whatever the payload
    holds. *)
Theorem reconcile_keeps_html_fields (h : Game.t) (apiJson : JsVal) (n : Item.t) :
  normalizeBggApi apiJson = Returned (Some n) ->
  exists r, reconcile h apiJson = Returned r /\
    Game.name r = Game.name h /\
    Game.year r = Game.year h /\
    Game.description r = Game.description h.
Proof.
  intros H. exists (assign h n). split; [by apply reconcile_present | done].
Qed.

Lemma reconcile_keeps_html_fields_witness :
  exists r, reconcile bare_record sample_json = Returned r /\
    Game.name r = Game.name bare_record /\
    Game.year r = Game.year bare_record /\
    Game.description r = Game.description bare_record.
Proof.
  eapply (reconcile_keeps_html_fields bare_record sample_json).
  vm_compute. reflexivity.
Defined.

(** C3. With a present API payload, each of the three collections of the
    reconciled record is the API collection when that one is not empty, and
    the HTML collection when it is empty. *)
Theorem reconcile_collections (h : Game.t) (apiJson : JsVal) (n : Item.t) :
  normalizeBggApi apiJson = Returned (Some n) ->
  exists r, reconcile h apiJson = Returned r /\
    (Item.designers n <> [] -> Game.designers r = Item.designers n) /\
    (Item.designers n = [] -> Game.designers r = Game.designers h) /\
    (Item.mechanics n <> [] -> Game.mechanics r = Item.mechanics n) /\
    (Item.mechanics n = [] -> Game.mechanics r = Game.mechanics h) /\
    (Item.categories n <> [] -> Game.categories r = Item.categories n) /\
    (Item.categories n = [] -> Game.categories r = Game.categories h).
Proof.
  intros H. exists (assign h n). split; [by apply reconcile_present |].
  simpl.
  destruct (Item.designers n), (Item.mechanics n), (Item.categories n);
    repeat split; intros; first [ done | by rewrite nonempty_or_nil | by rewrite nonempty_or_cons ].
Qed.

Lemma reconcile_collections_witness :
  exists r, reconcile bob_alice_record alice_json = Returned r /\
    Game.designers r = [JStr "Alice"] /\
    Game.mechanics r = [JStr "Tiles"].
Proof.
  destruct (reconcile_collections bob_alice_record alice_json
              (Item.mk JUndef (JStr "") (JStr "") (JStr "") (JStr "") (JStr "") (JStr "")
                       [JStr "Alice"] [] [] JNull JNull JNull))
    as (r & Hr & Hd & _ & _ & Hm & _).
  - vm_compute. reflexivity.
  - exists r. split; [exact Hr |]. split; [by apply Hd | by apply Hm].
Defined.

(** C4. With a present API payload, each scalar enrichment field of the
    reconciled record is the API value when that value is present, that is
    truthy: neither [null], [undefined] nor the empty string; otherwise it
    is the value of the HTML record.  The average rating and the voter count
    keep the HTML value as it stands.  The geek rating keeps every HTML
    value but [null] and [undefined], in whose place the empty string is
    written: with no API value, the geek rating of the reconciled record is
    present exactly when the one of the HTML record is. *)
Theorem reconcile_scalars (h : Game.t) (apiJson : JsVal) (n : Item.t) :
  normalizeBggApi apiJson = Returned (Some n) ->
  exists r, reconcile h apiJson = Returned r /\
    Game.avg_rating r =
      (if truthy (Item.avg_rating n) then Item.avg_rating n else Game.avg_rating h) /\
    Game.num_voters r =
      (if truthy (Item.num_voters n) then Item.num_voters n else Game.num_voters h) /\
    Game.geek_rating r =
      (if truthy (Item.geek_rating n) then Item.geek_rating n
       else if truthy (Game.geek_rating h) then Game.geek_rating h
       else JStr "") /\
    (truthy (Item.geek_rating n) = false -> nullish (Game.geek_rating h) = false ->
     Game.geek_rating r = Game.geek_rating h) /\
    (truthy (Item.geek_rating n) = false ->
     truthy (Game.geek_rating r) = truthy (Game.geek_rating h)).
Proof.
  intros H. exists (assign h n). split; [by apply reconcile_present |].
  simpl. unfold js_or.
  split; [done|]. split; [done|]. split; [|split].
  - destruct (truthy (Item.geek_rating n)) eqn:E; [by rewrite E |].
    by destruct (truthy (Game.geek_rating h)) eqn:E'; rewrite ?E'.
  - intros E Hn. rewrite E.
    destruct (Game.geek_rating h) as [| |s| | |]; try done. by destruct s.
  - intros E. rewrite E.
    by destruct (truthy (Game.geek_rating h)) eqn:E'; rewrite ?E'.
Qed.

Lemma reconcile_scalars_witness :
  exists r, reconcile bob_alice_record rated_json = Returned r /\
    Game.avg_rating r = JObj (<["value" := JStr "7.8"]> ∅) /\
    Game.num_voters r = JStr "" /\
    Game.geek_rating r = JStr "".
Proof.
  destruct (reconcile_scalars bob_alice_record rated_json
              (Item.mk JUndef (JStr "") (JStr "") (JStr "") (JStr "") (JStr "") (JStr "")
                       [] [] [] JNull (JObj (<["value" := JStr "7.8"]> ∅)) JUndef))
    as (r & Hr & Ha & Hv & Hg & _).
  - vm_compute. reflexivity.
  - exists r. split; [exact Hr |]. split; [exact Ha|]. split; [exact Hv | exact Hg].
Defined.

(** The page of an item whose payload carries no statistics: the extraction
    sets no geek rating, and the record that the handler hands to the
    dataset holds the empty string. *)
Example geek_rating_of_unrated_item :
  Game.geek_rating (extract item_42_doc sample_request (now sample_env 0)) = JUndef /\
  exists r,
    pushes (trace (extractGameFromPageCheerio sample_input sample_env sample_request
                     item_42_doc)) = [ItemGame r] /\
    Game.geek_rating r = JStr "".
Proof. split; [reflexivity|]. eexists. split; vm_compute; reflexivity. Qed.

(** ** C10: one link element *)

Lemma getp_truthy (v : JsVal) (k : string) :
  truthy v = true -> getp v k = Returned (get v k).
Proof. by destruct v. Qed.

Lemma getp_obj (m : gmap string JsVal) (k : string) :
  getp (JObj m) k = Returned (default JUndef (m !! k)).
Proof. reflexivity. Qed.

Lemma normalize_with_link (json t : gmap string JsVal) (tlink tlink' : JsVal) :
  links_of tlink = links_of tlink' ->
  normalizeBggApi (with_link json t tlink) = normalizeBggApi (with_link json t tlink').
Proof.
  intros Hl. unfold normalizeBggApi, with_link. simpl.
  rewrite !lookup_insert_eq. simpl.
  rewrite !lookup_insert_eq. simpl.
  rewrite !lookup_insert_ne by discriminate.
  rewrite Hl. reflexivity.
Qed.

Lemma or_else_returned (a b : JsVal) :
  or_else (Returned a) (Returned b) = Returned (js_or a b).
Proof. unfold or_else, js_or. simpl. by destruct (truthy a). Qed.

(** The loop never throws: a link that is read is truthy. *)
Lemma add_link_returns (acc : Links) (l : JsVal) :
  exists acc', add_link acc l = Returned acc'.
Proof.
  unfold add_link. destruct (truthy l) eqn:Hl; simpl; [|eauto].
  rewrite !(getp_truthy l) by done. rewrite !or_else_returned. simpl. eauto.
Qed.

Lemma add_links_returns (links : list JsVal) (acc : Links) :
  exists acc', add_links acc links = Returned acc'.
Proof.
  revert acc. induction links as [|l rest IH]; intros acc; simpl; [eauto|].
  destruct (add_link_returns acc l) as [acc1 ->]. simpl. apply IH.
Qed.

Ltac use_truthy :=
  repeat match goal with
  | H : truthy ?v = true |- context [getp ?v ?k] => rewrite (getp_truthy v k H)
  end.

Ltac eval_truthy :=
  repeat first
    [ progress (unfold cond, and_then, or_else, dot)
    | progress simpl
    | progress use_truthy
    | match goal with
      | |- context [if truthy ?x then _ else _] =>
          let E := fresh "E" in destruct (truthy x) eqn:E
      | |- context [if negb ?b then _ else _] =>
          let E := fresh "E" in destruct (negb b) eqn:E
      end ].

(** The first part of a chain of binds returns. *)
Ltac step_bind :=
  match goal with
  | |- exists n, (?e ≫= _) = _ =>
      let H := fresh "H" in
      assert (H : exists w, e = Returned w);
      [ by (eval_truthy; eauto) | destruct H as [? ->]; simpl ]
  end.

(** An item is normalized without an exception unless its [name] is an array
    that starts with [null] or [undefined], which the XML parser never
    builds. *)
Lemma normalize_returns (json t : gmap string JsVal) (tlink : JsVal) :
  (forall names, t !! "name" = Some (JArr names) -> truthy (index0 names) = true) ->
  exists n, normalizeBggApi (with_link json t tlink) = Returned (Some n).
Proof.
  intros Hname. unfold normalizeBggApi, with_link. simpl.
  rewrite !lookup_insert_eq. simpl.
  rewrite !lookup_insert_eq. simpl.
  rewrite !lookup_insert_ne by discriminate.
  destruct (add_links_returns (links_of tlink) (mkLinks [] [] [])) as [acc ->].
  assert (Hn : forall nm, t !! "name" = nm ->
    exists w, match default JUndef nm with
              | JArr l => getp (index0 l) "value"
              | _ => or_else
                       (if truthy (default JUndef nm)
                        then getp (default JUndef nm) "value"
                        else Returned (default JUndef nm))
                       (Returned (JStr ""))
              end = Returned w).
  { intros [[| |s|names|m|f]|] Hnm; simpl;
      [ | | | rewrite (getp_truthy _ _ (Hname _ Hnm)) | | | ]; eval_truthy; eauto. }
  destruct (Hn _ eq_refl) as [w ->]. clear Hn. simpl.
  repeat step_bind. eauto.
Qed.

Lemma add_link_obj (acc : Links) (l : gmap string JsVal) :
  add_link acc (JObj l) = Returned (push_link acc l).
Proof.
  unfold add_link.
  change (negb (truthy (JObj l))) with false. cbv iota.
  rewrite !getp_obj, !or_else_returned.
  change (Returned ?a ≫= ?f) with (f a). cbv beta.
  unfold push_link. fold (link_type l). fold (link_value l).
  destruct acc as [d m c]. simpl.
  destruct (strict_eq_str (link_type l) "boardgamedesigner"),
           (strict_eq_str (link_type l) "boardgamemechanic"),
           (strict_eq_str (link_type l) "boardgamecategory");
    simpl; rewrite ?app_nil_r; reflexivity.
Qed.

(** C10. An item whose [link] is a single object is normalized exactly as
    the item whose [link] is the array of that one object: the display value
    of the link enters the collection named by its type, and a link of
    another type enters none. *)
Theorem single_link_as_array (json t l : gmap string JsVal) :
  normalizeBggApi (with_link json t (JObj l))
    = normalizeBggApi (with_link json t (JArr [JObj l])) /\
  forall n, normalizeBggApi (with_link json t (JObj l)) = Returned (Some n) ->
    Item.designers n =
      (if strict_eq_str (link_type l) "boardgamedesigner" then [link_value l] else []) /\
    Item.mechanics n =
      (if strict_eq_str (link_type l) "boardgamemechanic" then [link_value l] else []) /\
    Item.categories n =
      (if strict_eq_str (link_type l) "boardgamecategory" then [link_value l] else []).
Proof.
  split; [by apply normalize_with_link |].
  intros n H. unfold normalizeBggApi, with_link in H. simpl in H.
  rewrite !lookup_insert_eq in H. simpl in H.
  rewrite !lookup_insert_eq in H. simpl in H.
  rewrite add_link_obj in H. simpl in H.
  repeat (bind_inv H). injection H as <-. simpl. done.
Qed.

Lemma single_link_as_array_witness :
  exists n,
    normalizeBggApi (with_link ∅ sample_thing (JObj designer_link)) = Returned (Some n) /\
    normalizeBggApi (with_link ∅ sample_thing (JArr [JObj designer_link]))
      = Returned (Some n) /\
    Item.designers n = [JStr "Alice"] /\
    Item.mechanics n = [] /\
    Item.categories n = [].
Proof.
  destruct (single_link_as_array ∅ sample_thing designer_link) as [Heq Hn].
  destruct (normalize_returns ∅ sample_thing (JObj designer_link)) as [n Hr].
  { intros names Hnames. vm_compute in Hnames. discriminate. }
  exists n. split; [exact Hr |]. split; [by rewrite <- Heq |].
  apply (Hn n Hr).
Defined.

(** ** Trimming and digit filtering *)

Lemma space_not_digit (c : ascii) : is_space c = true -> is_digit c = false.
Proof.
  destruct c as [[] [] [] [] [] [] [] []]; vm_compute; congruence.
Qed.

Lemma trim_start_empty (s : string) :
  trim_start s = "" -> all_chars is_space s = true.
Proof.
  induction s as [|c r IH]; simpl; [done|].
  destruct (is_space c); [auto | discriminate].
Qed.

Lemma trim_end_empty (s : string) :
  trim_end s = "" -> all_chars is_space s = true.
Proof.
  induction s as [|c r IH]; simpl; [done|].
  destruct (trim_end r); [|discriminate].
  destruct (is_space c); [auto | discriminate].
Qed.

(** [trim_start] stops at a character that is not white space. *)
Lemma trim_start_head (s : string) :
  trim_start s = "" \/
  exists c r, trim_start s = String c r /\ is_space c = false.
Proof.
  induction s as [|c r IH]; simpl; [by left|].
  destruct (is_space c) eqn:E; [exact IH | right; eauto].
Qed.

Lemma trim_empty (s : string) : trim s = "" -> all_chars is_space s = true.
Proof.
  unfold trim. intros H. apply trim_end_empty in H.
  destruct (trim_start_head s) as [E | (c & r & E & Hc)].
  - by apply trim_start_empty.
  - rewrite E in H. simpl in H. by rewrite Hc in H.
Qed.

Lemma digits_only_spaces (s : string) :
  all_chars is_space s = true -> digits_only s = "".
Proof.
  induction s as [|c r IH]; simpl; [done|].
  intros H. apply andb_true_iff in H as [Hc Hr].
  unfold digits_only in *. simpl. rewrite (space_not_digit _ Hc). auto.
Qed.

Lemma digits_only_trim_empty (s : string) : trim s = "" -> digits_only s = "".
Proof. intros H. by apply digits_only_spaces, trim_empty. Qed.

Lemma digits_only_digits (s : string) : all_chars is_digit (digits_only s) = true.
Proof.
  unfold digits_only. induction s as [|c r IH]; simpl; [done|].
  destruct (is_digit c) eqn:E; simpl; [by rewrite E | done].
Qed.

(** ** C8, C9: the HTML extraction *)

Lemma stringish_of_option (o : option string) : stringish (of_option o) = true.
Proof. by destruct o. Qed.

Lemma stringish_js_or (a b : JsVal) :
  stringish a = true -> stringish b = true -> stringish (js_or a b) = true.
Proof. unfold js_or. by destruct (truthy a). Qed.

(** [a || ''] is a string when [a] is a string, [undefined] or [null]. *)
Lemma is_string_js_or (a : JsVal) (s : string) :
  stringish a = true -> is_string (js_or a (JStr s)) = true.
Proof. unfold js_or. destruct a; simpl; try done. by destruct (negb _). Qed.

Lemma group_shape (m : captures) (n : nat) :
  (exists s, group m n = JStr s) \/ group m n = JUndef.
Proof. unfold group. destruct (m !! n); simpl; eauto. Qed.

Lemma id_from_canonical_string (canonical : string) :
  exists s, id_from_canonical canonical = JStr s.
Proof.
  unfold id_from_canonical.
  destruct (truthy (JStr canonical)); [|eauto].
  destruct (js_match re_canonical canonical) as [m|]; [|eauto].
  destruct (group_shape m 1) as [[s ->] | ->], (group_shape m 2) as [[s' ->] | ->];
    unfold js_or; simpl; repeat (destruct (negb _); simpl); eauto.
Qed.

(** The identifier is a string, or [undefined] when the capture group of the
    metadata pattern took no part. *)
Lemma extract_bggId_shape (dollar : Cheerio) :
  (exists s, extract_bggId dollar = JStr s) \/ extract_bggId dollar = JUndef.
Proof.
  unfold extract_bggId, id_from_meta.
  destruct (id_from_canonical_string (or_empty (attr "href" (dollar SelCanonical))))
    as [s ->].
  destruct (negb (truthy (JStr s))); [|eauto].
  destruct (js_match re_meta _) as [m|]; [apply group_shape | eauto].
Qed.

Lemma extract_bggId_truthy (dollar : Cheerio) :
  truthy (extract_bggId dollar) = true ->
  exists id, extract_bggId dollar = JStr id.
Proof.
  destruct (extract_bggId_shape dollar) as [[s ->] | ->]; [eauto | discriminate].
Qed.

(** C8 as stated fails for two fields.  The second candidate of the name is
    the raw [content] attribute, which is not trimmed, so a blank content
    is taken although both candidates trim to the empty string.  And the
    geek rating, which no selector feeds, is not set to the empty string:
    the record holds no geek rating at all. *)
Lemma extract_blank_title_counterexample :
  trim (text (first (blank_title_doc SelTitle))) = "" /\
  trim (or_empty (attr "content" (blank_title_doc SelOgTitle))) = "" /\
  Game.name (extract blank_title_doc sample_request "t") = JStr " " /\
  Game.name (extract blank_title_doc sample_request "t") <> JStr "" /\
  Game.geek_rating (extract blank_title_doc sample_request "t") = JUndef /\
  Game.geek_rating (extract blank_title_doc sample_request "t") <> JStr "".
Proof.
  split; [vm_compute; reflexivity|]. split; [vm_compute; reflexivity|].
  split; [vm_compute; reflexivity|]. split; [vm_compute; discriminate|].
  split; [reflexivity | discriminate].
Qed.

(** C8, amended. [extract] is total; every scalar field that it sets, which
    is every scalar field but the geek rating, is a string; the geek rating
    is not set: it is [undefined] in the record; a field that is set is the
    empty string when each of its candidates is empty as the code reads it,
    which is the trimmed text of the first matched element and, for the
    second candidate of the name, the [content] attribute as it stands; and
    the identifier is the empty string when no identifier selector
    matches. *)
Theorem extract_empty_sentinels (dollar : Cheerio) (request : Request) (now : string) :
  let r := extract dollar request now in
  (is_string (Game.name r) = true /\ is_string (Game.bgg_id r) = true /\
   is_string (Game.year r) = true /\ is_string (Game.avg_rating r) = true /\
   is_string (Game.num_voters r) = true /\ is_string (Game.description r) = true /\
   is_string (Game.url r) = true /\ is_string (Game.extracted_at r) = true) /\
  Game.geek_rating r = JUndef /\
  (trim (text (first (dollar SelTitle))) = "" ->
   or_empty (attr "content" (dollar SelOgTitle)) = "" ->
   Game.name r = JStr "") /\
  (trim (text (first (dollar SelRating))) = "" -> Game.avg_rating r = JStr "") /\
  (trim (text (first (dollar SelRatingsLink))) = "" -> Game.num_voters r = JStr "") /\
  (trim (text (first (dollar SelYear))) = "" -> Game.year r = JStr "") /\
  (trim (text (first (dollar SelDescription))) = "" -> Game.description r = JStr "") /\
  (dollar SelCanonical = [] -> dollar SelOgUrl = [] -> Game.bgg_id r = JStr "").
Proof.
  simpl. split; [|split; [reflexivity | repeat split]].
  - repeat split; try done;
      repeat first [ apply is_string_js_or | apply stringish_js_or
                   | apply stringish_of_option | reflexivity ].
    by destruct (extract_bggId_shape dollar) as [[s ->] | ->].
  - intros Ht Hc. rewrite Ht.
    destruct (attr "content" (dollar SelOgTitle)) as [c|]; simpl in *; [by subst|done].
  - intros Ht. by rewrite Ht.
  - intros Ht. by rewrite (digits_only_trim_empty _ Ht).
  - intros Ht. by rewrite (digits_only_trim_empty _ Ht).
  - intros Ht. by rewrite Ht.
  - intros Hc Hm. unfold extract_bggId. by rewrite Hc, Hm.
Qed.

Lemma extract_empty_sentinels_witness :
  Game.name bare_record = JStr "" /\
  Game.avg_rating bare_record = JStr "" /\
  Game.num_voters bare_record = JStr "" /\
  Game.year bare_record = JStr "" /\
  Game.description bare_record = JStr "" /\
  Game.bgg_id bare_record = JStr "" /\
  Game.geek_rating bare_record = JUndef.
Proof.
  destruct (extract_empty_sentinels empty_doc sample_request "2024-01-01T00:00:00.000Z")
    as (_ & Hg & Hn & Ha & Hv & Hy & Hd & Hi).
  exact (conj (Hn eq_refl eq_refl) (conj (Ha eq_refl) (conj (Hv eq_refl)
           (conj (Hy eq_refl) (conj (Hd eq_refl) (conj (Hi eq_refl eq_refl) Hg)))))).
Defined.

(** C9. The pattern of the metadata tag lacks the second alternative of the
    pattern of the canonical link: a URL that ends in the numeric id yields
    the id through the canonical link and nothing through the metadata
    tag. *)
Theorem meta_pattern_misses_trailing_id :
  extract_bggId (canonical_doc "https://boardgamegeek.com/boardgame/42") = JStr "42" /\
  extract_bggId (meta_doc "https://boardgamegeek.com/boardgame/42") = JStr "" /\
  extract_bggId (canonical_doc "https://boardgamegeek.com/boardgame/42/azul") = JStr "42" /\
  extract_bggId (meta_doc "https://boardgamegeek.com/boardgame/42/azul") = JStr "" /\
  extract_bggId (canonical_doc "https://boardgamegeek.com/boardgame/azul/42") = JStr "42" /\
  extract_bggId (meta_doc "https://boardgamegeek.com/boardgame/azul/42") = JStr "42".
Proof. repeat split; vm_compute; reflexivity. Qed.

(** A page with only the canonical link of an item: the identifier is read
    from the link, and the rating, for which nothing matches, is empty. *)
Example extract_canonical_only :
  Game.bgg_id (extract item_42_doc sample_request "t") = JStr "42" /\
  Game.avg_rating (extract item_42_doc sample_request "t") = JStr "" /\
  Game.geek_rating (extract item_42_doc sample_request "t") = JUndef.
Proof. repeat split; vm_compute; reflexivity. Qed.

(** The greedy [.*] gives characters back until a slash and a digit follow. *)
Example canonical_pattern_last_segment :
  js_match re_canonical "https://x.test/boardgame/a/7/42/slug/9x" = Some (<[1 := "9"]> ∅).
Proof. vm_compute. reflexivity. Qed.

(** ** C5: the raw payload in the key-value store *)

(** C5 as stated fails on the key: the write goes to [games/<id>], not to
    [items/<id>]. *)
Lemma kv_key_counterexample :
  extract_bggId item_42_doc = JStr "42" /\
  kv_writes (trace (extractGameFromPageCheerio sample_input sample_env sample_request
                      item_42_doc))
    = [("games/42", sample_json, "application/json")] /\
  kv_writes (trace (extractGameFromPageCheerio sample_input sample_env sample_request
                      item_42_doc))
    <> [("items/42", sample_json, "application/json")].
Proof.
  split; [vm_compute; reflexivity |].
  assert (H : kv_writes (trace (extractGameFromPageCheerio sample_input sample_env
                                  sample_request item_42_doc))
              = [("games/42", sample_json, "application/json")])
    by (vm_compute; reflexivity).
  split; [exact H |]. rewrite H. intros E. inversion E.
Qed.

Lemma kv_writes_app (a b : list Event) : kv_writes (a ++ b) = (kv_writes a ++ kv_writes b)%list.
Proof. apply omap_app. Qed.

Lemma pushes_app (a b : list Event) : pushes (a ++ b) = (pushes a ++ pushes b)%list.
Proof. apply omap_app. Qed.

Lemma pushes_cons (e : Event) (l : list Event) :
  pushes (e :: l) = (pushes [e] ++ pushes l)%list.
Proof. by destruct e. Qed.

(** The enrichment block, case by case. *)
Lemma enrich_disabled (input : Input) (env : Env) (bggId : JsVal) (record : Game.t) :
  useBggApi input && truthy bggId = false ->
  enrich input env bggId record = mkRun [] (Returned record).
Proof. unfold enrich. by intros ->. Qed.

Lemma enrich_absent (input : Input) (env : Env) (bggId : JsVal) (record : Game.t) :
  useBggApi input && truthy bggId = true ->
  normalizeBggApi (api_response env bggId) = Returned None ->
  enrich input env bggId record = mkRun [Fetch (api_url bggId)] (Returned record).
Proof. unfold enrich. intros -> H. simpl. unfold mbind, run_bind. simpl. by rewrite H. Qed.

Lemma enrich_thrown (input : Input) (env : Env) (bggId : JsVal) (record : Game.t) e :
  useBggApi input && truthy bggId = true ->
  normalizeBggApi (api_response env bggId) = Thrown e ->
  enrich input env bggId record = mkRun [Fetch (api_url bggId)] (Thrown e).
Proof. unfold enrich. intros -> H. simpl. unfold mbind, run_bind. simpl. by rewrite H. Qed.

Lemma enrich_present (input : Input) (env : Env) (bggId : JsVal) (record : Game.t) n :
  useBggApi input && truthy bggId = true ->
  normalizeBggApi (api_response env bggId) = Returned (Some n) ->
  exists warning,
    enrich input env bggId record =
      mkRun (Fetch (api_url bggId)
             :: KvSet (kv_key bggId) (api_response env bggId) "application/json"
             :: warning)
            (Returned (assign record n)) /\
    kv_writes warning = [] /\ pushes warning = [].
Proof.
  unfold enrich. intros -> H. simpl. unfold mbind, run_bind. simpl. rewrite H. simpl.
  unfold store_raw, mbind, run_bind. simpl.
  destruct (kv_setValue env _ _); simpl; eauto.
Qed.

(** The handler after the enrichment block. *)
Lemma extractGame_unfold (input : Input) (env : Env) (request : Request)
    (dollar : Cheerio) :
  let e := enrich input env (extract_bggId dollar) (extract dollar request (now env 0)) in
  let info := LogInfo "Extracting game page (cheerio)" (page_url request) in
  extractGameFromPageCheerio input env request dollar =
    match result e with
    | Returned r =>
        mkRun (info :: trace e ++ [Push (ItemGame r)])
              (match dataset_pushData env (ItemGame r) with
               | None => Returned r
               | Some message => Thrown message
               end)
    | Thrown message => mkRun (info :: trace e) (Thrown message)
    end.
Proof.
  simpl. unfold extractGameFromPageCheerio, mbind, run_bind. simpl.
  destruct (enrich input env _ _) as [t [r|m]]; simpl; [|done].
  unfold pushData, mbind, run_bind. simpl.
  destruct (dataset_pushData env (ItemGame r)); simpl; by rewrite ?app_nil_r.
Qed.

(** C5, amended. When the enrichment of the item [id] yields a present
    payload, the handler attempts exactly one write to the key-value store,
    of the raw parsed payload under the key [games/<id>]; when the payload is
    absent, or enrichment is off, it attempts none; and whatever the store
    answers, the handler ends the same way with the same record handed to the
    dataset. *)
Theorem blob_write_best_effort (input : Input) (env : Env) (request : Request)
    (dollar : Cheerio) :
  let bggId := extract_bggId dollar in
  let apiJson := api_response env bggId in
  let record := extract dollar request (now env 0) in
  let run := extractGameFromPageCheerio input env request dollar in
  (forall n, useBggApi input && truthy bggId = true ->
     normalizeBggApi apiJson = Returned (Some n) ->
     exists id, bggId = JStr id /\
       kv_writes (trace run) = [("games/" +:+ id, apiJson, "application/json")] /\
       pushes (trace run) = [ItemGame (assign record n)]) /\
  (useBggApi input && truthy bggId = false \/ lacks_item apiJson = true ->
     kv_writes (trace run) = [] /\ pushes (trace run) = [ItemGame record]) /\
  (forall kv,
     let run' := extractGameFromPageCheerio input (with_kv env kv) request dollar in
     result run' = result run /\ pushes (trace run') = pushes (trace run)).
Proof.
  cbv zeta. repeat split.
  - intros n Hon Hn.
    apply andb_true_iff in Hon as Hon'. destruct Hon' as [_ Ht].
    destruct (extract_bggId_truthy _ Ht) as [id Hid]. exists id. split; [done|].
    rewrite extractGame_unfold. cbv zeta.
    destruct (enrich_present input env _ (extract dollar request (now env 0)) n Hon Hn)
      as (w & -> & Hk & Hp). simpl.
    rewrite kv_writes_app, pushes_app, Hk, Hp. unfold kv_key. by rewrite Hid.
  - rewrite extractGame_unfold. cbv zeta.
    destruct H as [Hoff | Habs].
    + by rewrite enrich_disabled.
    + destruct (useBggApi input && truthy (extract_bggId dollar)) eqn:Hon.
      * by rewrite (enrich_absent _ _ _ _ Hon (normalize_lacks_item _ Habs)).
      * by rewrite enrich_disabled.
  - rewrite extractGame_unfold. cbv zeta.
    destruct H as [Hoff | Habs].
    + by rewrite enrich_disabled.
    + destruct (useBggApi input && truthy (extract_bggId dollar)) eqn:Hon.
      * by rewrite (enrich_absent _ _ _ _ Hon (normalize_lacks_item _ Habs)).
      * by rewrite enrich_disabled.
  - rewrite !extractGame_unfold. cbv zeta.
    change (now (with_kv env kv) 0) with (now env 0).
    destruct (useBggApi input && truthy (extract_bggId dollar)) eqn:Hon;
      [|by rewrite !enrich_disabled].
    destruct (normalizeBggApi (api_response env (extract_bggId dollar)))
      as [[n|]|e] eqn:Hn.
    + destruct (enrich_present input env _ (extract dollar request (now env 0)) n Hon Hn)
        as (w & -> & _ & _).
      destruct (enrich_present input (with_kv env kv) _
                  (extract dollar request (now env 0)) n Hon Hn) as (w' & -> & _ & _).
      done.
    + by rewrite (enrich_absent input env _ _ Hon Hn),
         (enrich_absent input (with_kv env kv) _ _ Hon Hn).
    + by rewrite (enrich_thrown input env _ _ _ Hon Hn),
         (enrich_thrown input (with_kv env kv) _ _ _ Hon Hn).
  - rewrite !extractGame_unfold. cbv zeta.
    change (now (with_kv env kv) 0) with (now env 0).
    destruct (useBggApi input && truthy (extract_bggId dollar)) eqn:Hon;
      [|by rewrite !enrich_disabled].
    destruct (normalizeBggApi (api_response env (extract_bggId dollar)))
      as [[n|]|e] eqn:Hn.
    + destruct (enrich_present input env _ (extract dollar request (now env 0)) n Hon Hn)
        as (w & -> & _ & Hp).
      destruct (enrich_present input (with_kv env kv) _
                  (extract dollar request (now env 0)) n Hon Hn) as (w' & -> & _ & Hp').
      simpl. by rewrite !pushes_app, Hp, Hp'.
    + by rewrite (enrich_absent input env _ _ Hon Hn),
         (enrich_absent input (with_kv env kv) _ _ Hon Hn).
    + by rewrite (enrich_thrown input env _ _ _ Hon Hn),
         (enrich_thrown input (with_kv env kv) _ _ _ Hon Hn).
Qed.

Lemma blob_write_best_effort_witness :
  kv_writes (trace (extractGameFromPageCheerio sample_input sample_env sample_request
                      item_42_doc))
    = [("games/42", sample_json, "application/json")] /\
  kv_writes (trace (extractGameFromPageCheerio sample_input sample_env sample_request
                      empty_doc)) = [] /\
  result (extractGameFromPageCheerio sample_input (with_kv sample_env failing_kv)
            sample_request item_42_doc)
    = result (extractGameFromPageCheerio sample_input sample_env sample_request
                item_42_doc).
Proof.
  destruct (blob_write_best_effort sample_input sample_env sample_request item_42_doc)
    as (Hone & _ & Hkv).
  destruct (blob_write_best_effort sample_input sample_env sample_request empty_doc)
    as (_ & Hnone & _).
  split; [| split].
  - destruct (Hone (Item.mk (JStr "42") (JStr "Azul") (JStr "") (JStr "") (JStr "")
                            (JStr "") (JStr "") [] [] [] JNull JNull JNull))
      as (id & Hid & Hw & _); [reflexivity | vm_compute; reflexivity |].
    vm_compute in Hid. injection Hid as <-. exact Hw.
  - apply Hnone. left. reflexivity.
  - apply (Hkv failing_kv).
Defined.

(** ** C6: the rows of a listing page *)


Lemma toString_truthy (u : URL) : truthy (JStr (toString u)) = true.
Proof. unfold toString. simpl. by destruct (scheme u). Qed.


Section Listing.

Variable new_URL : string -> option string -> option URL.





Lemma pushes_enqueue (rs : list Request) : pushes (Enqueue <$> rs) = [].
Proof. by induction rs. Qed.

(** The trace of the listing handler: the log line, the enqueued requests,
    then the loop over the rows. *)
Lemma listing_trace (input : Input) (env : Env) (request : Request)
    (dollar : Cheerio) (links : list string) :
  trace (listingPageHandler new_URL input env request dollar links) =
    (LogInfo "Processing listing" (page_url request)
     :: (Enqueue <$> omap (fun l => transformRequestFunction new_URL input request
                                      (candidate l)) links)
     ++ trace (push_rows new_URL env (page_url request) 0 (dollar SelRows)))%list /\
  result (listingPageHandler new_URL input env request dollar links) =
    result (push_rows new_URL env (page_url request) 0 (dollar SelRows)).
Proof.
  unfold listingPageHandler, enqueueLinks, mbind, run_bind. cbn [emit trace result].
  done.
Qed.

(** The loop pushes a prefix of the rows with a truthy [abs]: all of them
    when it returns, and up to the rejected one when it throws. *)
Lemma push_rows_prefix (env : Env) (url : string) (g : nat -> nat) (k : nat)
    (rows : list Elem) :
  (forall i, g i = (k + i)%nat) ->
  let run := push_rows new_URL env url k rows in
  let all := ItemRow <$> filter (fun r => truthy (RowRecord.url r) = true)
               (imap (fun i row => rowRecord new_URL url (now env (g i)) row) rows) in
  pushes (trace run) `prefix_of` all /\
  (result run = Returned tt -> pushes (trace run) = all) /\
  (forall m, result run = Thrown m ->
     exists r, last (pushes (trace run)) = Some (ItemRow r) /\
               dataset_pushData env (ItemRow r) = Some m).
Proof.
  cbv zeta. revert g k. induction rows as [|row rows IH]; intros g k Hg.
  - cbn. split; [done|]. split; [done|]. intros m [=].
  - rewrite imap_cons, filter_cons.
    destruct (IH (g ∘ S) (S k)) as (IHp & IHr & IHt).
    { intros i. unfold compose. rewrite Hg. lia. }
    cbn [push_rows]. rewrite Hg, Nat.add_0_r. unfold mbind, run_bind.
    destruct (truthy (RowRecord.url (rowRecord new_URL url (now env k) row))) eqn:E.
    + rewrite decide_True by done. rewrite fmap_cons.
      unfold pushData, mbind, run_bind. cbn [emit trace result].
      destruct (dataset_pushData env (ItemRow _)) as [m|] eqn:Ed;
        cbn [trace result throw mret run_ret app].
      * split; [by apply prefix_cons, prefix_nil|]. split; [done|].
        intros m' [= <-]. eauto.
      * rewrite pushes_cons. cbn [pushes omap list_omap app].
        split; [by apply prefix_cons|]. split.
        -- intros Hr. f_equal. by apply IHr.
        -- intros m Hm. destruct (IHt m Hm) as (r & Hlast & Hrej).
           exists r. split; [|done]. rewrite last_cons. by rewrite Hlast.
    + rewrite decide_False by done. cbn [trace result mret run_ret app]. done.
Qed.


Lemma listing_pushes (input : Input) (env : Env) (request : Request)
    (dollar : Cheerio) (links : list string) :
  pushes (trace (listingPageHandler new_URL input env request dollar links))
  = pushes (trace (push_rows new_URL env (page_url request) 0 (dollar SelRows))).
Proof.
  destruct (listing_trace input env request dollar links) as [-> _].
  rewrite pushes_cons, pushes_app, pushes_enqueue. reflexivity.
Qed.

(** Whatever the dataset answers, an item that the listing handler hands to
    it is the record of a row of the page, with a truthy [url]. *)
Lemma listing_pushed_row (input : Input) (env : Env) (request : Request)
    (dollar : Cheerio) (links : list string) (item : DatasetItem) :
  item ∈ pushes (trace (listingPageHandler new_URL input env request dollar links)) ->
  exists i row,
    dollar SelRows !! i = Some row /\
    item = ItemRow (rowRecord new_URL (page_url request) (now env i) row) /\
    truthy (RowRecord.url (rowRecord new_URL (page_url request) (now env i) row)) = true.
Proof.
  rewrite listing_pushes. intros Hin.
  destruct (push_rows_prefix env (page_url request) id 0 (dollar SelRows))
    as [Hp _]; [done|].
  apply (elem_of_prefix _ _ _ Hin) in Hp.
  apply list_elem_of_fmap in Hp as (r & -> & Hr).
  apply list_elem_of_filter in Hr as [Ht Hr].
  apply elem_of_lookup_imap in Hr as (i & row & -> & Hi).
  by exists i, row.
Qed.

End Listing.





(** *** A listing page with two rows *)


(** ** C7: the link filter *)

Section LinkFilter.

Variable new_URL : string -> option string -> option URL.
Variable input : Input.
Hypothesis same_origin_only : followInternalOnly input = true.

(** A candidate that the filter keeps parses, and its host is the start
    host of the page. *)
Lemma transform_kept (request r child : Request) :
  transformRequestFunction new_URL input request r = Some child ->
  child = r /\
  exists sh pu, start_host new_URL request = Some sh /\
                new_URL (url r) None = Some pu /\ host pu = sh.
Proof.
  unfold transformRequestFunction. rewrite same_origin_only.
  destruct (start_host new_URL request) as [sh|]; [|discriminate].
  destruct (new_URL (url r) None) as [pu|]; [|discriminate].
  destruct (String.eqb (host pu) sh) eqn:E; simpl; [|discriminate].
  intros [= <-]. apply String.eqb_eq in E. split; [done|]. by exists sh, pu.
Qed.

Lemma transform_unparsable (request r : Request) :
  new_URL (url r) None = None ->
  transformRequestFunction new_URL input request r = None.
Proof.
  intros H. unfold transformRequestFunction. rewrite same_origin_only, H.
  by destruct (start_host new_URL request).
Qed.

Lemma start_host_seed (u : string) (final : option string) :
  start_host new_URL (loaded (startRequest new_URL u) final) = host <$> new_URL u None.
Proof.
  unfold start_host, startRequest.
  destruct (new_URL u None) as [p|] eqn:E; simpl; rewrite ?E; [|done].
  by destruct (negb _).
Qed.

(** A hop hands the start host on, carried or computed again. *)
Lemma hop_start_host (q q' : Request) :
  hop new_URL input q q' -> start_host new_URL q' = start_host new_URL q.
Proof.
  intros [link child final _ Ht | link sh child final _ Hsh Ht];
    apply transform_kept in Ht as (-> & sh' & pu & Hq & Hpu & Hh);
    simpl in Hpu; unfold start_host at 1; simpl; rewrite Hpu, Hq; simpl.
  - by rewrite Hh.
  - rewrite Hsh in Hq. injection Hq as <-. rewrite Hh. by destruct (negb _).
Qed.

Lemma reached_start_host (u : string) (q : Request) :
  reached new_URL input u q -> start_host new_URL q = host <$> new_URL u None.
Proof.
  intros [final Hr]. revert q Hr.
  apply (rtc_ind_r (fun q => start_host new_URL q = host <$> new_URL u None)).
  - apply start_host_seed.
  - intros y z _ Hyz IH. by rewrite (hop_start_host _ _ Hyz).
Qed.

End LinkFilter.

Lemma discovered_page_reached : reached sample_new_URL hot_input hot_seed discovered_page.
Proof.
  exists None. apply rtc_once.
  apply (hop_cheerio sample_new_URL hot_input _ "https://example.test/boardgame/42"
           (mkRequest "https://example.test/boardgame/42" None (mkUserData None))
           (Some "https://example.test/hot")); vm_compute; reflexivity.
Qed.

(** C7 as stated fails on the propagation: under the Cheerio crawler a
    discovered page carries no origin host, and the listing branch that
    handles it takes the host of the URL of its own request. *)
Lemma start_host_not_propagated_counterexample :
  reached sample_new_URL hot_input hot_seed discovered_page /\
  host <$> sample_new_URL hot_seed None = Some "example.test" /\
  startHost (userData discovered_page) = None /\
  startHost (userData discovered_page) <> (host <$> sample_new_URL hot_seed None) /\
  is_game_page (page_url discovered_page) = false /\
  start_host sample_new_URL discovered_page
    = host <$> sample_new_URL (url discovered_page) None.
Proof.
  split; [exact discovered_page_reached |].
  repeat split; try (vm_compute; reflexivity). vm_compute. discriminate.
Qed.

(** C7, amended. With [followInternalOnly], on every page reached from a
    seed URL a candidate is kept only if its URL parses and its host is the
    host of the seed URL, and it is kept when that holds; a candidate whose
    URL does not parse is dropped.  The host that the filter compares with
    is the one recorded for the seed when the request carries it, and the
    host of the URL of the request otherwise; on every reached page the two
    agree with the host of the seed URL. *)
Theorem same_origin_filter (new_URL : string -> option string -> option URL)
    (input : Input) (u : string) (q : Request) :
  followInternalOnly input = true ->
  reached new_URL input u q ->
  (forall r child, transformRequestFunction new_URL input q r = Some child ->
     child = r /\
     exists p pu, new_URL u None = Some p /\ new_URL (url r) None = Some pu /\
                  host pu = host p) /\
  (forall r p pu, new_URL u None = Some p -> new_URL (url r) None = Some pu ->
     host pu = host p -> transformRequestFunction new_URL input q r = Some r) /\
  (forall r, new_URL (url r) None = None ->
     transformRequestFunction new_URL input q r = None) /\
  start_host new_URL q = host <$> new_URL u None.
Proof.
  intros Hmode Hq.
  pose proof (reached_start_host new_URL input Hmode u q Hq) as Hsh.
  repeat split.
  - by apply (transform_kept new_URL input Hmode q r child).
  - apply (transform_kept new_URL input Hmode) in H as (_ & sh & pu & Hs & Hpu & Hh).
    rewrite Hsh in Hs. destruct (new_URL u None) as [p|]; [|discriminate].
    injection Hs as <-. by exists p, pu.
  - intros r p pu Hp Hpu Hh. unfold transformRequestFunction.
    rewrite Hmode, Hsh, Hp, Hpu. simpl. rewrite Hh, String.eqb_refl. reflexivity.
  - intros r Hr. by apply transform_unparsable.
  - exact Hsh.
Qed.

Lemma same_origin_filter_witness :
  transformRequestFunction sample_new_URL hot_input discovered_page
    (mkRequest "https://example.test/boardgame/42" None (mkUserData None))
  = Some (mkRequest "https://example.test/boardgame/42" None (mkUserData None)) /\
  transformRequestFunction sample_new_URL hot_input discovered_page
    (mkRequest "not a url" None (mkUserData None)) = None /\
  start_host sample_new_URL discovered_page = Some "example.test".
Proof.
  destruct (same_origin_filter sample_new_URL hot_input hot_seed discovered_page
              eq_refl discovered_page_reached) as (_ & Hkeep & Hdrop & Hsh).
  split; [| split].
  - apply (Hkeep _ (mkURL "https" "example.test" "//example.test/hot")
                 (mkURL "https" "example.test" "//example.test/boardgame/42"));
      reflexivity.
  - apply Hdrop. reflexivity.
  - rewrite Hsh. reflexivity.
Defined.

Example other_host_dropped :
  transformRequestFunction sample_new_URL hot_input discovered_page
    (mkRequest "https://other.test/boardgame/7" None (mkUserData None)) = None.
Proof. vm_compute. reflexivity. Qed.

(** * Further properties *)

(** ** Capture groups of the identifier patterns *)

Lemma all_chars_app (p : ascii -> bool) (a b : string) :
  all_chars p (a +:+ b) = all_chars p a && all_chars p b.
Proof. induction a as [|c a IH]; simpl; [done|]. by rewrite IH, andb_assoc. Qed.

Lemma consumed_app (pre rest : string) : consumed (pre +:+ rest) rest = pre.
Proof.
  unfold consumed.
  assert (H : String.length (pre +:+ rest)
              = (String.length pre + String.length rest)%nat).
  { induction pre as [|c pre IH]; simpl; [done | by rewrite IH]. }
  rewrite H. replace (String.length pre + String.length rest - String.length rest)%nat
    with (String.length pre) by lia. clear H. induction pre as [|c pre IH]; simpl.
  - by destruct rest.
  - by rewrite IH.
Qed.

(** A greedy repetition hands the continuation a suffix, after a prefix of
    characters of the class. *)
Lemma star_inv {A} (k : cclass) (s : string) (cont : string -> option A) (x : A) :
  star k s cont = Some x ->
  exists pre rest, s = pre +:+ rest /\ all_chars (in_class k) pre = true /\
                   cont rest = Some x.
Proof.
  induction s as [|c s IH]; simpl.
  - intros H. by exists "", "".
  - destruct (in_class k c) eqn:Hc.
    + destruct (star k s cont) as [y|] eqn:Hs.
      * intros [= ->]. destruct (IH eq_refl) as (pre & rest & -> & Hp & Hk).
        exists (String c pre), rest. simpl. by rewrite Hc, Hp.
      * intros H. by exists "", (String c s).
    + intros H. by exists "", (String c s).
Qed.

(** The group [(\d+)] at the end of a pattern captures a non-empty string of
    digits. *)
Lemma run_digits_group (n : nat) (s : string) (caps m : captures) :
  run (Group n (Plus CDigit)) s caps (fun _ c => Some c) = Some m ->
  exists d, m = <[n := d]> caps /\ all_chars is_digit d = true /\ d <> "".
Proof.
  cbn [run]. destruct s as [|c r]; [done|].
  destruct (in_class CDigit c) eqn:Hc; [|done].
  intros H. apply star_inv in H as (pre & rest & -> & Hp & [= <-]).
  exists (String c pre). split; [|split; [|done]].
  - f_equal. apply (consumed_app (String c pre) rest).
  - cbn [all_chars]. change (is_digit c) with (in_class CDigit c). rewrite Hc. exact Hp.
Qed.

Lemma run_typed_segment (s : string) (m : captures) :
  run re_meta s ∅ (fun _ c => Some c) = Some m ->
  exists d, m = <[1%nat := d]> ∅ /\ all_chars is_digit d = true /\ d <> "".
Proof.
  unfold re_meta. cbn [run].
  destruct (strip_prefix "/boardgame/" s) as [r1|]; [|done].
  intros H. apply star_inv in H as (pre & rest & _ & _ & H).
  destruct (strip_prefix "/" rest) as [r2|]; [|done].
  by apply (run_digits_group 1 r2 ∅ m).
Qed.

Lemma run_trailing_id (s : string) (m : captures) :
  run (Seq (Lit "/boardgame/") (Group 2 (Plus CDigit))) s ∅ (fun _ c => Some c) = Some m ->
  exists d, m = <[2%nat := d]> ∅ /\ all_chars is_digit d = true /\ d <> "".
Proof.
  cbn [run]. destruct (strip_prefix "/boardgame/" s) as [r1|]; [|done].
  by apply (run_digits_group 2 r1 ∅ m).
Qed.

Lemma match_meta_digits (s : string) (m : captures) :
  js_match re_meta s = Some m ->
  exists d, m = <[1%nat := d]> ∅ /\ all_chars is_digit d = true /\ d <> "".
Proof.
  induction s as [|c s IH]; cbn [js_match].
  - destruct (run re_meta "" ∅ _) as [m'|] eqn:E; [|done].
    intros [= <-]. by apply (run_typed_segment "").
  - destruct (run re_meta (String c s) ∅ _) as [m'|] eqn:E; [|exact IH].
    intros [= <-]. by apply (run_typed_segment (String c s)).
Qed.

Lemma run_canonical (s : string) (m : captures) :
  run re_canonical s ∅ (fun _ c => Some c) = Some m ->
  exists d, (m = <[1%nat := d]> ∅ \/ m = <[2%nat := d]> ∅) /\
            all_chars is_digit d = true /\ d <> "".
Proof.
  unfold re_canonical. cbn [run]. fold re_meta.
  change (match run re_meta s ∅ (fun _ c => Some c) with
          | Some x => Some x
          | None => run (Seq (Lit "/boardgame/") (Group 2 (Plus CDigit))) s ∅
                        (fun _ c => Some c)
          end = Some m -> exists d, (m = <[1%nat := d]> ∅ \/ m = <[2%nat := d]> ∅) /\
            all_chars is_digit d = true /\ d <> "").
  destruct (run re_meta s ∅ _) as [m'|] eqn:E.
  - intros [= <-]. destruct (run_typed_segment _ _ E) as (d & -> & Hd). eauto.
  - intros H. destruct (run_trailing_id _ _ H) as (d & -> & Hd). eauto.
Qed.

Lemma match_canonical_digits (s : string) (m : captures) :
  js_match re_canonical s = Some m ->
  exists d, (m = <[1%nat := d]> ∅ \/ m = <[2%nat := d]> ∅) /\
            all_chars is_digit d = true /\ d <> "".
Proof.
  induction s as [|c s IH]; cbn [js_match].
  - destruct (run re_canonical "" ∅ _) as [m'|] eqn:E; [|done].
    intros [= <-]. by apply (run_canonical "").
  - destruct (run re_canonical (String c s) ∅ _) as [m'|] eqn:E; [|exact IH].
    intros [= <-]. by apply (run_canonical (String c s)).
Qed.

Lemma truthy_nonempty (d : string) : d <> "" -> truthy (JStr d) = true.
Proof. by destruct d. Qed.

Lemma js_or_truthy (a b : JsVal) : truthy a = true -> js_or a b = a.
Proof. unfold js_or. by intros ->. Qed.

Lemma id_from_canonical_digits (canonical : string) :
  exists d, id_from_canonical canonical = JStr d /\ all_chars is_digit d = true.
Proof.
  unfold id_from_canonical. destruct (truthy (JStr canonical)); [|by exists ""].
  destruct (js_match re_canonical canonical) as [m|] eqn:E; [|by exists ""].
  destruct (match_canonical_digits _ _ E) as (d & [-> | ->] & Hd & Hne);
    exists d; (split; [|done]); unfold group, captures in *.
  - rewrite lookup_insert_eq. cbn [of_option].
    by rewrite !(js_or_truthy (JStr d)) by by apply truthy_nonempty.
  - rewrite lookup_insert_eq, lookup_insert_ne, lookup_empty by done. cbn [of_option].
    change (js_or JUndef (JStr d)) with (JStr d).
    by rewrite (js_or_truthy (JStr d)) by by apply truthy_nonempty.
Qed.

Lemma extract_bggId_string (dollar : Cheerio) :
  exists d, extract_bggId dollar = JStr d /\ all_chars is_digit d = true.
Proof.
  unfold extract_bggId, id_from_meta.
  destruct (id_from_canonical_digits (or_empty (attr "href" (dollar SelCanonical))))
    as (d & -> & Hd).
  destruct (negb (truthy (JStr d))); [|eauto].
  destruct (js_match re_meta _) as [m|] eqn:E; [|eauto].
  destruct (match_meta_digits _ _ E) as (d' & -> & Hd' & _).
  exists d'. unfold group, captures in *. by rewrite lookup_insert_eq.
Qed.

(** X1. The identifier of a game page is a string of decimal digits, empty
    when neither the canonical link nor the metadata tag yields one, and it
    is the [bgg_id] of the extracted record. *)
Theorem extract_bggId_digits (dollar : Cheerio) (request : Request) (now : string) :
  exists d, extract_bggId dollar = JStr d /\ all_chars is_digit d = true /\
            Game.bgg_id (extract dollar request now) = JStr d.
Proof.
  destruct (extract_bggId_string dollar) as (d & Hd & Hdig).
  exists d. repeat split; try done.
  cbn [extract Game.bgg_id]. rewrite Hd. unfold js_or.
  by destruct (truthy (JStr d)) eqn:E; [|destruct d].
Qed.

(** ** The game-page handler: API request, dataset, bounds *)

Lemma encode_digits (d : string) :
  all_chars is_digit d = true -> encodeURIComponent d = d.
Proof.
  induction d as [|c d IH]; simpl; [done|].
  intros H. apply andb_true_iff in H as [Hc Hd].
  unfold encode_char, unreserved. rewrite Hc, orb_true_r. simpl. by rewrite (IH Hd).
Qed.

Lemma fetches_app (a b : list Event) : fetches (a ++ b) = (fetches a ++ fetches b)%list.
Proof. apply omap_app. Qed.

Lemma fetches_cons (e : Event) (l : list Event) :
  fetches (e :: l) = (fetches [e] ++ fetches l)%list.
Proof. by destruct e. Qed.

(** The trace of the enrichment block. *)
Lemma enrich_trace (input : Input) (env : Env) (bggId : JsVal) (record : Game.t) :
  trace (enrich input env bggId record) =
    if useBggApi input && truthy bggId then
      Fetch (api_url bggId) ::
      match normalizeBggApi (api_response env bggId) with
      | Returned (Some _) =>
          KvSet (kv_key bggId) (api_response env bggId) "application/json" ::
          match kv_setValue env (kv_key bggId) (api_response env bggId) with
          | None => []
          | Some message =>
              [LogWarning "Failed to save BGG API JSON to KV" bggId message]
          end
      | _ => []
      end
    else [].
Proof.
  unfold enrich. destruct (useBggApi input && truthy bggId); [|done].
  unfold mbind at 1. unfold run_bind. simpl.
  destruct (normalizeBggApi (api_response env bggId)) as [[n|]|e]; simpl; try done.
  unfold store_raw, mbind, run_bind. simpl.
  by destruct (kv_setValue env _ _).
Qed.

(** X2. The game-page handler asks the API at most once: exactly once when
    enrichment is on and the page has an identifier, at the address of that
    identifier, which needs no escaping; and not at all otherwise. *)
Theorem one_api_request_per_page (input : Input) (env : Env) (request : Request)
    (dollar : Cheerio) :
  exists d, extract_bggId dollar = JStr d /\
    fetches (trace (extractGameFromPageCheerio input env request dollar)) =
      if useBggApi input && negb (String.eqb d "")
      then ["https://boardgamegeek.com/xmlapi2/thing?id=" +:+ d +:+ "&stats=1"]
      else [].
Proof.
  destruct (extract_bggId_string dollar) as (d & Hd & Hdig). exists d. split; [done|].
  rewrite extractGame_unfold. cbv zeta. rewrite Hd.
  assert (Ht : fetches (trace (enrich input env (JStr d) (extract dollar request (now env 0))))
               = if useBggApi input && negb (String.eqb d "")
                 then ["https://boardgamegeek.com/xmlapi2/thing?id=" +:+ d +:+ "&stats=1"]
                 else []).
  { rewrite enrich_trace. change (truthy (JStr d)) with (negb (String.eqb d "")).
    destruct (useBggApi input && negb (String.eqb d "")); [|done].
    unfold api_url. cbn [to_str]. rewrite (encode_digits d Hdig).
    destruct (normalizeBggApi _) as [[n|]|e]; [|done|done].
    cbn [fetches omap]. by destruct (kv_setValue env _ _). }
  destruct (result (enrich input env (JStr d) _)); cbn [trace];
    rewrite fetches_cons, ?fetches_app, Ht; cbn [fetches omap app];
    by rewrite ?app_nil_r.
Qed.

Lemma pushes_enrich (input : Input) (env : Env) (bggId : JsVal) (record : Game.t) :
  pushes (trace (enrich input env bggId record)) = [].
Proof.
  rewrite enrich_trace. destruct (useBggApi input && truthy bggId); [|done].
  destruct (normalizeBggApi _) as [[n|]|e]; try done.
  by destruct (kv_setValue env _ _).
Qed.

Lemma kv_writes_cons (e : Event) (l : list Event) :
  kv_writes (e :: l) = (kv_writes [e] ++ kv_writes l)%list.
Proof. by destruct e. Qed.

(** X3. The game-page handler hands the reconciled record to the dataset
    exactly once and returns that record; a rejection by the dataset is not
    caught and ends the handler with that error; and when the normalization
    of the payload throws, the handler ends with that error before anything
    is pushed or stored. *)
Theorem game_record_to_dataset (input : Input) (env : Env) (request : Request)
    (dollar : Cheerio) :
  let record := extract dollar request (now env 0) in
  let bggId := extract_bggId dollar in
  let run := extractGameFromPageCheerio input env request dollar in
  match (if useBggApi input && truthy bggId
         then reconcile record (api_response env bggId)
         else Returned record) with
  | Returned r =>
      pushes (trace run) = [ItemGame r] /\
      result run = match dataset_pushData env (ItemGame r) with
                   | None => Returned r
                   | Some message => Thrown message
                   end
  | Thrown e =>
      pushes (trace run) = [] /\ kv_writes (trace run) = [] /\ result run = Thrown e
  end.
Proof.
  cbv zeta. rewrite extractGame_unfold. cbv zeta.
  pose proof (enrich_result input env (extract_bggId dollar)
                (extract dollar request (now env 0))) as Hr.
  pose proof (pushes_enrich input env (extract_bggId dollar)
                (extract dollar request (now env 0))) as Hp.
  pose proof (enrich_trace input env (extract_bggId dollar)
                (extract dollar request (now env 0))) as Ht.
  rewrite <- Hr.
  destruct (result (enrich input env (extract_bggId dollar) _)) as [r|e] eqn:E;
    cbn [trace result].
  - rewrite pushes_cons, pushes_app, Hp. split; reflexivity.
  - rewrite pushes_cons, kv_writes_cons, Hp. split; [reflexivity|]. split; [|reflexivity].
    rewrite Ht.
    destruct (useBggApi input && truthy (extract_bggId dollar)); [|done].
    unfold reconcile in Hr.
    by destruct (normalizeBggApi _) as [[n|]|e'].
Qed.

(** A payload whose [name] is an empty array, in a world that serves it. *)
Lemma unnamed_payload_aborts :
  result (extractGameFromPageCheerio sample_input unnamed_env sample_request item_42_doc)
    = Thrown "TypeError" /\
  pushes (trace (extractGameFromPageCheerio sample_input unnamed_env sample_request
                   item_42_doc)) = [].
Proof. split; vm_compute; reflexivity. Qed.

Lemma substring_length_le (n : nat) (s : string) :
  String.length (substring 0 n s) <= n.
Proof.
  revert s. induction n as [|n IH]; intros [|c s]; simpl; try lia.
  specialize (IH s). lia.
Qed.

(** X4. The description of the extracted record is a string of at most 2000
    characters, and reconciliation with any payload leaves it as it is. *)
Theorem description_bounded (dollar : Cheerio) (request : Request) (now : string) :
  exists d, Game.description (extract dollar request now) = JStr d /\
    String.length d <= 2000 /\
    forall apiJson r, reconcile (extract dollar request now) apiJson = Returned r ->
                      Game.description r = JStr d.
Proof.
  assert (H : exists d, Game.description (extract dollar request now) = JStr d /\
                        String.length d <= 2000).
  { cbn [extract Game.description]. unfold js_or.
    destruct (truthy (JStr _)); eexists; (split; [reflexivity|]);
      [apply substring_length_le | simpl; lia]. }
  destruct H as (d & Hd & Hlen). exists d. repeat split; try done.
  intros apiJson r Hr. unfold reconcile in Hr.
  destruct (normalizeBggApi apiJson) as [[n|]|e]; simpl in Hr; [| |done];
    injection Hr as <-; exact Hd.
Qed.

(** X5. The year and the voter count of the extracted record hold decimal
    digits only. *)
Theorem extract_digit_fields (dollar : Cheerio) (request : Request) (now : string) :
  exists y v, Game.year (extract dollar request now) = JStr y /\
              all_chars is_digit y = true /\
              Game.num_voters (extract dollar request now) = JStr v /\
              all_chars is_digit v = true.
Proof.
  cbn [extract Game.year Game.num_voters]. unfold js_or.
  destruct (truthy (JStr (digits_only (text (first (dollar SelYear)))))) eqn:Ey,
           (truthy (JStr (digits_only (text (first (dollar SelRatingsLink)))))) eqn:Ev;
    rewrite ?Ev; do 2 eexists; repeat split; try apply digits_only_digits; reflexivity.
Qed.

(** ** normalizeBggApi: outcomes and collections *)

Lemma lacks_item_false (json : JsVal) :
  lacks_item json = false ->
  truthy json = true /\ truthy (get json "thing") = true /\
  getp json "thing" = Returned (get json "thing").
Proof.
  unfold lacks_item. destruct (truthy json) eqn:Hj; simpl; [|done].
  rewrite (getp_truthy _ _ Hj). intros H. apply negb_false_iff in H. done.
Qed.

Lemma nullish_truthy (v : JsVal) : nullish v = false -> truthy v = true \/ v = JStr "".
Proof. destruct v as [| |s| | |]; simpl; try done; try (by left). destruct s; eauto. Qed.

Lemma getp_nullish (v : JsVal) (k : string) :
  nullish v = true -> getp v k = Thrown "TypeError".
Proof. by destruct v. Qed.

Lemma getp_not_nullish (v : JsVal) (k : string) :
  nullish v = false -> getp v k = Returned (get v k).
Proof. by destruct v. Qed.

(** The item is produced when the first name can be read. *)
Lemma normalize_returns_gen (json : JsVal) :
  lacks_item json = false ->
  (forall l, get (get json "thing") "name" = JArr l -> nullish (index0 l) = false) ->
  exists n, normalizeBggApi json = Returned (Some n).
Proof.
  intros Hl Hname. destruct (lacks_item_false json Hl) as (Hj & Ht & Hg).
  unfold normalizeBggApi. rewrite Hj, Hg. cbn [negb]. unfold mbind at 1.
  unfold outcome_bind at 1. rewrite Ht. cbn [negb].
  set (t := get json "thing") in *.
  unfold dot. cbn [mbind outcome_bind].
  rewrite !(getp_truthy t) by done. cbn [mbind outcome_bind].
  destruct (add_links_returns (links_of (get t "link")) (mkLinks [] [] [])) as [acc ->].
  assert (Hn : exists w,
    match get t "name" with
    | JArr l => getp (index0 l) "value"
    | _ => or_else (and_then (Returned (get t "name")) (getp (get t "name") "value"))
                   (Returned (JStr ""))
    end = Returned w).
  { destruct (get t "name") as [| |s|names|m|f] eqn:Hnm;
      [ | | | rewrite (getp_not_nullish _ _ (Hname _ eq_refl)) | | ];
      eval_truthy; eauto. }
  destruct Hn as [w ->]. cbn [mbind outcome_bind].
  repeat step_bind. eauto.
Qed.

Lemma normalize_throws (json : JsVal) (l : list JsVal) :
  lacks_item json = false ->
  get (get json "thing") "name" = JArr l -> nullish (index0 l) = true ->
  normalizeBggApi json = Thrown "TypeError".
Proof.
  intros Hl Hname Hnull. destruct (lacks_item_false json Hl) as (Hj & Ht & Hg).
  unfold normalizeBggApi. rewrite Hj, Hg. cbn [negb]. unfold mbind at 1.
  unfold outcome_bind at 1. rewrite Ht. cbn [negb].
  set (t := get json "thing") in *.
  unfold dot. cbn [mbind outcome_bind].
  rewrite !(getp_truthy t) by done. cbn [mbind outcome_bind].
  rewrite Hname, (getp_nullish _ _ Hnull). reflexivity.
Qed.

(** X7. [normalizeBggApi] returns [null] exactly when the response is falsy
    or holds no truthy [thing]; it throws, with a TypeError, exactly when the
    item is there and its [name] is an array whose first element is [null] or
    [undefined] (an empty array included); in every other case it returns an
    item. *)
Theorem normalize_outcomes (json : JsVal) :
  (normalizeBggApi json = Returned None <-> lacks_item json = true) /\
  (normalizeBggApi json = Thrown "TypeError" <->
     lacks_item json = false /\
     exists l, get (get json "thing") "name" = JArr l /\ nullish (index0 l) = true) /\
  (forall e, normalizeBggApi json = Thrown e -> e = "TypeError") /\
  ((exists n, normalizeBggApi json = Returned (Some n)) <->
     lacks_item json = false /\
     forall l, get (get json "thing") "name" = JArr l -> nullish (index0 l) = false).
Proof.
  assert (Hcases : lacks_item json = true \/
    (lacks_item json = false /\
     exists l, get (get json "thing") "name" = JArr l /\ nullish (index0 l) = true) \/
    (lacks_item json = false /\
     forall l, get (get json "thing") "name" = JArr l -> nullish (index0 l) = false)).
  { destruct (lacks_item json); [by left | right].
    destruct (get (get json "thing") "name") as [| |s|l|m|f] eqn:E;
      try (right; split; [done | by intros l' [=]]).
    destruct (nullish (index0 l)) eqn:En.
    - left. split; [done|]. by exists l.
    - right. split; [done|]. by intros l' [= <-]. }
  destruct Hcases as [Hl | [(Hl & l & Hn & Hnull) | (Hl & Hn)]].
  - rewrite (normalize_lacks_item _ Hl), Hl.
    split; [done|]. split; [split; [done | by intros [? _]]|]. split; [done|].
    split; [by intros [n ?] | by intros [? _]].
  - rewrite (normalize_throws _ _ Hl Hn Hnull), Hl.
    split; [by split|]. split; [split; [intros _; split; [done | by exists l] | done]|].
    split; [by intros e [= <-]|].
    split; [by intros [n ?] | intros [_ H]; specialize (H l Hn); congruence].
  - destruct (normalize_returns_gen _ Hl Hn) as [n ->]. rewrite Hl.
    split; [by split|]. split.
    { split; [done|]. intros (_ & l & Hl' & Hnull). rewrite (Hn l Hl') in Hnull. done. }
    split; [done|]. split; [by intros _ | intros _; by exists n].
Qed.

Lemma collect_one (ty : string) (l : JsVal) :
  collect ty [l] =
    if truthy l && strict_eq_str (get l "type") ty
    then [js_or (js_or (get l "value") (get l "name")) (JStr "")]
    else [].
Proof. unfold collect. simpl. by destruct (truthy l && _). Qed.

(** One iteration of the loop appends to each collection what [collect]
    keeps of the link. *)
Lemma add_link_collect (acc : Links) (l : JsVal) :
  add_link acc l =
    Returned (mkLinks (l_designers acc ++ collect "boardgamedesigner" [l])
                      (l_mechanics acc ++ collect "boardgamemechanic" [l])
                      (l_categories acc ++ collect "boardgamecategory" [l])).
Proof.
  unfold add_link. rewrite !collect_one.
  destruct (truthy l) eqn:Hl; cbn [negb andb].
  - rewrite !(getp_truthy l) by done. rewrite !or_else_returned.
    cbn [mbind outcome_bind]. destruct acc as [d m c].
    cbn [l_designers l_mechanics l_categories].
    destruct (strict_eq_str (get l "type") "boardgamedesigner"),
             (strict_eq_str (get l "type") "boardgamemechanic"),
             (strict_eq_str (get l "type") "boardgamecategory");
      cbn [l_designers l_mechanics l_categories]; rewrite ?app_nil_r; reflexivity.
  - destruct acc. cbn [l_designers l_mechanics l_categories]. by rewrite !app_nil_r.
Qed.

Lemma collect_cons (ty : string) (l : JsVal) (links : list JsVal) :
  collect ty (l :: links) = (collect ty [l] ++ collect ty links)%list.
Proof. unfold collect. simpl. by destruct (truthy l && _). Qed.

Lemma add_links_collect (links : list JsVal) (acc : Links) :
  add_links acc links =
    Returned (mkLinks (l_designers acc ++ collect "boardgamedesigner" links)
                      (l_mechanics acc ++ collect "boardgamemechanic" links)
                      (l_categories acc ++ collect "boardgamecategory" links)).
Proof.
  revert acc. induction links as [|l links IH]; intros acc.
  - destruct acc. cbn. by rewrite !app_nil_r.
  - cbn [add_links]. rewrite add_link_collect. cbn [mbind outcome_bind].
    rewrite IH. cbn [l_designers l_mechanics l_categories].
    by rewrite !(collect_cons _ l links), !app_assoc.
Qed.

(** A link enters one collection at most. *)
Lemma collect_lengths (links : list JsVal) :
  List.length (collect "boardgamedesigner" links)
  + List.length (collect "boardgamemechanic" links)
  + List.length (collect "boardgamecategory" links) <= List.length links.
Proof.
  induction links as [|l links IH]; [done|].
  rewrite !(collect_cons _ l links), !length_app. cbn [List.length].
  assert (List.length (collect "boardgamedesigner" [l])
          + List.length (collect "boardgamemechanic" [l])
          + List.length (collect "boardgamecategory" [l]) <= 1); [|lia].
  rewrite !collect_one. destruct (truthy l); cbn [andb]; [|simpl; lia].
  destruct (get l "type") as [| |s| | |]; try (simpl; lia).
  unfold strict_eq_str.
  destruct (String.eqb s "boardgamedesigner") eqn:E1;
    [apply String.eqb_eq in E1; subst; simpl; lia|].
  destruct (String.eqb s "boardgamemechanic") eqn:E2;
    [apply String.eqb_eq in E2; subst; simpl; lia|].
  destruct (String.eqb s "boardgamecategory"); simpl; lia.
Qed.

(** X6. The three collections of a normalized item are what the links of
    the item hold for each type, in the order of the links: a falsy entry is
    passed over, a link of another type is left out, and no link enters two
    collections. *)
Theorem normalize_collects_links (json : JsVal) (n : Item.t) :
  normalizeBggApi json = Returned (Some n) ->
  let links := links_of (get (get json "thing") "link") in
  Item.designers n = collect "boardgamedesigner" links /\
  Item.mechanics n = collect "boardgamemechanic" links /\
  Item.categories n = collect "boardgamecategory" links /\
  List.length (Item.designers n) + List.length (Item.mechanics n)
    + List.length (Item.categories n) <= List.length links.
Proof.
  intros H links.
  assert (Hl : lacks_item json = false).
  { destruct (lacks_item json) eqn:E; [|done].
    by rewrite (normalize_lacks_item _ E) in H. }
  destruct (lacks_item_false json Hl) as (Hj & Ht & Hg).
  unfold normalizeBggApi in H. rewrite Hj, Hg in H. cbn [negb] in H.
  unfold mbind at 1 in H. unfold outcome_bind at 1 in H. rewrite Ht in H. cbn [negb] in H.
  unfold dot in H. cbn [mbind outcome_bind] in H.
  rewrite !(getp_truthy (get json "thing")) in H by done. cbn [mbind outcome_bind] in H.
  rewrite add_links_collect in H. cbn [mbind outcome_bind] in H.
  cbn [l_designers l_mechanics l_categories app] in H.
  repeat (bind_inv H). injection H as <-. cbn [Item.designers Item.mechanics Item.categories].
  repeat split. apply collect_lengths.
Qed.

Lemma normalize_collects_links_witness :
  exists n, normalizeBggApi mixed_links_json = Returned (Some n) /\
    Item.designers n = [JStr "Alice"; JStr "Bob"] /\
    Item.mechanics n = [JStr "Drafting"] /\
    Item.categories n = [].
Proof.
  eexists. split; [vm_compute; reflexivity|].
  destruct (normalize_collects_links mixed_links_json _ ltac:(vm_compute; reflexivity))
    as (Hd & Hm & Hc & _).
  rewrite Hd, Hm, Hc. vm_compute. done.
Defined.

(** ** The listing handler: enqueued links and pushed rows *)

Lemma enqueued_app (a b : list Event) :
  enqueued (a ++ b) = (enqueued a ++ enqueued b)%list.
Proof. apply omap_app. Qed.

Lemma enqueued_enqueue (rs : list Request) : enqueued (Enqueue <$> rs) = rs.
Proof. unfold enqueued. induction rs as [|r rs IH]; simpl; [done | by f_equal]. Qed.

Section ListingTrace.

Variable new_URL : string -> option string -> option URL.

Lemma push_rows_no_enqueue (env : Env) (url : string) (k : nat) (rows : list Elem) :
  enqueued (trace (push_rows new_URL env url k rows)) = [] /\
  fetches (trace (push_rows new_URL env url k rows)) = [] /\
  kv_writes (trace (push_rows new_URL env url k rows)) = [].
Proof.
  revert k. induction rows as [|row rows IH]; intros k; [done|].
  cbn [push_rows]. unfold mbind, run_bind.
  destruct (IH (S k)) as (He & Hf & Hk).
  destruct (truthy (RowRecord.url (rowRecord new_URL url (now env k) row))).
  - unfold pushData, mbind, run_bind. cbn [emit trace result].
    destruct (dataset_pushData env _); cbn [trace result throw mret run_ret];
      rewrite ?enqueued_app, ?fetches_app, ?kv_writes_app, ?He, ?Hf, ?Hk; done.
  - cbn [trace result mret run_ret].
    rewrite ?enqueued_app, ?fetches_app, ?kv_writes_app, ?He, ?Hf, ?Hk; done.
Qed.

Lemma enqueued_listing (input : Input) (env : Env) (request : Request)
    (dollar : Cheerio) (links : list string) :
  enqueued (trace (listingPageHandler new_URL input env request dollar links)) =
    omap (fun l => transformRequestFunction new_URL input request (candidate l)) links.
Proof.
  destruct (listing_trace new_URL input env request dollar links) as [-> _].
  change (LogInfo ?m ?u :: ?l) with ([LogInfo m u] ++ l)%list.
  rewrite !enqueued_app, enqueued_enqueue.
  destruct (push_rows_no_enqueue env (page_url request) 0 (dollar SelRows)) as [-> _].
  cbn. by rewrite app_nil_r.
Qed.

(** X8. Without [followInternalOnly] the listing handler enqueues every
    candidate link, in page order, also one whose URL does not parse. *)
Theorem unrestricted_follows_all (input : Input) (env : Env) (request : Request)
    (dollar : Cheerio) (links : list string) :
  followInternalOnly input = false ->
  enqueued (trace (listingPageHandler new_URL input env request dollar links))
  = candidate <$> links.
Proof.
  intros Hmode. rewrite enqueued_listing. unfold transformRequestFunction. rewrite Hmode.
  induction links as [|l links IH]; simpl; [done | by f_equal].
Qed.

Lemma transform_candidate (input : Input) (request : Request) (l : string) :
  followInternalOnly input = true ->
  transformRequestFunction new_URL input request (candidate l) =
    if on_start_host new_URL request l then Some (candidate l) else None.
Proof.
  intros Hmode. unfold transformRequestFunction, on_start_host. rewrite Hmode.
  destruct (start_host new_URL request) as [sh|]; [|done].
  cbn [candidate url]. destruct (new_URL l None) as [u|]; [|done].
  by destruct (String.eqb (host u) sh).
Qed.

(** X9. With [followInternalOnly] the listing handler enqueues exactly the
    candidates whose URL parses to the start host of the page, in page
    order, each as it was built: the URL unchanged and no user data. *)
Theorem restricted_follows_start_host (input : Input) (env : Env) (request : Request)
    (dollar : Cheerio) (links : list string) :
  followInternalOnly input = true ->
  enqueued (trace (listingPageHandler new_URL input env request dollar links))
  = candidate <$> filter (fun l => on_start_host new_URL request l = true) links.
Proof.
  intros Hmode. rewrite enqueued_listing.
  induction links as [|l links IH]; [done|].
  cbn [omap list_omap]. rewrite (transform_candidate _ _ _ Hmode), filter_cons.
  destruct (on_start_host new_URL request l) eqn:E.
  - rewrite decide_True by done. rewrite fmap_cons. f_equal. exact IH.
  - rewrite decide_False by done. exact IH.
Qed.

Lemma listing_pushes_rows_only (input : Input) (env : Env) (request : Request)
    (dollar : Cheerio) (links : list string) :
  Forall (fun i => exists r, i = ItemRow r)
         (pushes (trace (listingPageHandler new_URL input env request dollar links))).
Proof.
  rewrite listing_pushes.
  destruct (push_rows_prefix new_URL env (page_url request) id 0 (dollar SelRows))
    as [[rest Hp] _]; [done|].
  apply Forall_forall. intros i Hi.
  assert (Hin : i ∈ ItemRow <$> filter (fun r => truthy (RowRecord.url r) = true)
            (imap (fun i row => rowRecord new_URL (page_url request) (now env (id i)) row)
                  (dollar SelRows))).
  { rewrite Hp. apply elem_of_app. by left. }
  apply list_elem_of_fmap in Hin as (r & -> & _). by exists r.
Qed.

(** X10. The listing handler hands the rows of the page to the dataset in
    order and stops at the first one that the dataset rejects: what it has
    pushed is a prefix of the rows to emit, which are the records with a
    truthy [url] in document order, it is all of them when the handler
    returns, and when the handler throws, the error is the one of the last
    row pushed. *)
Theorem listing_stops_at_rejected_row (input : Input) (env : Env) (request : Request)
    (dollar : Cheerio) (links : list string) :
  let run := listingPageHandler new_URL input env request dollar links in
  let all :=
    ItemRow <$>
      filter (fun r => truthy (RowRecord.url r) = true)
             (imap (fun i row => rowRecord new_URL (page_url request) (now env i) row)
                   (dollar SelRows)) in
  pushes (trace run) `prefix_of` all /\
  (result run = Returned tt -> pushes (trace run) = all) /\
  (forall m, result run = Thrown m ->
     exists r, last (pushes (trace run)) = Some (ItemRow r) /\
               dataset_pushData env (ItemRow r) = Some m).
Proof.
  cbv zeta.
  destruct (listing_trace new_URL input env request dollar links) as [_ Hr].
  rewrite listing_pushes, Hr.
  apply (push_rows_prefix new_URL env (page_url request) id 0 (dollar SelRows)). done.
Qed.

(** X11. Whatever the dataset answers, every row that the listing handler
    hands to it is the record of a row of the page whose first item link
    has a non-empty [href] that the [URL] constructor accepts against the
    URL of the listing page: its [url] is the serialization of that parsed
    URL, a non-empty string, its [source_page] is the URL of the listing
    page, its time stamp is the clock reading of its iteration, and its
    name, rank and hotness are strings. *)
Theorem emitted_row_fields (input : Input) (env : Env) (request : Request)
    (dollar : Cheerio) (links : list string) (r : RowRecord.t) :
  ItemRow r ∈ pushes (trace (listingPageHandler new_URL input env request dollar links)) ->
  exists i row href u,
    dollar SelRows !! i = Some row /\
    attr "href" (first (el_find row SelItemLink)) = Some href /\
    href <> "" /\
    new_URL href (Some (page_url request)) = Some u /\
    RowRecord.url r = JStr (toString u) /\
    toString u <> "" /\
    RowRecord.source_page r = JStr (page_url request) /\
    RowRecord.extracted_at r = JStr (now env i) /\
    is_string (RowRecord.name r) = true /\
    is_string (RowRecord.rank r) = true /\
    is_string (RowRecord.hotness r) = true.
Proof.
  intros Hin.
  apply (listing_pushed_row new_URL) in Hin as (i & row & Hi & Heq & Ht).
  injection Heq as ->. exists i, row. revert Ht.
  cbn [rowRecord RowRecord.url RowRecord.source_page RowRecord.extracted_at
       RowRecord.name RowRecord.rank RowRecord.hotness].
  destruct (attr "href" (first (el_find row SelItemLink))) as [href|]; [|done].
  destruct (truthy (of_option (Some href))) eqn:Hne; [|done].
  change (or_empty (Some href)) with href. unfold resolveUrl.
  destruct (new_URL href (Some (page_url request))) as [u|] eqn:Hu; [|done].
  intros _. exists href, u.
  split; [exact Hi|]. split; [reflexivity|].
  split; [by intros ->|]. split; [exact Hu|]. split; [reflexivity|].
  split.
  { pose proof (toString_truthy u) as H. intros E. rewrite E in H. done. }
  split; [reflexivity|]. split; [reflexivity|].
  repeat split; repeat first [ apply is_string_js_or | apply stringish_js_or | reflexivity ].
Qed.

End ListingTrace.

(** ** The request handler and the start requests *)

Lemma enqueued_cons (e : Event) (l : list Event) :
  enqueued (e :: l) = (enqueued [e] ++ enqueued l)%list.
Proof. by destruct e. Qed.

Lemma enqueued_enrich (input : Input) (env : Env) (bggId : JsVal) (record : Game.t) :
  enqueued (trace (enrich input env bggId record)) = [].
Proof.
  rewrite enrich_trace. destruct (useBggApi input && truthy bggId); [|done].
  destruct (normalizeBggApi _) as [[n|]|e]; try done.
  by destruct (kv_setValue env _ _).
Qed.

Lemma enqueued_game (input : Input) (env : Env) (request : Request) (dollar : Cheerio) :
  enqueued (trace (extractGameFromPageCheerio input env request dollar)) = [].
Proof.
  rewrite extractGame_unfold. cbv zeta.
  pose proof (enqueued_enrich input env (extract_bggId dollar)
                (extract dollar request (now env 0))) as He.
  destruct (result (enrich input env (extract_bggId dollar) _)); cbn [trace];
    rewrite enqueued_cons, ?enqueued_app, He; reflexivity.
Qed.

Lemma then_unit_trace {A} (x : Run A) : trace (x ;; mret tt) = trace x.
Proof.
  unfold mbind, run_bind. destruct (result x); cbn [trace mret run_ret]; [|done].
  by rewrite app_nil_r.
Qed.

Lemma pushes_game (input : Input) (env : Env) (request : Request) (dollar : Cheerio) :
  pushes (trace (extractGameFromPageCheerio input env request dollar)) = [] \/
  exists r, pushes (trace (extractGameFromPageCheerio input env request dollar))
            = [ItemGame r].
Proof.
  rewrite extractGame_unfold. cbv zeta.
  pose proof (pushes_enrich input env (extract_bggId dollar)
                (extract dollar request (now env 0))) as Hp.
  destruct (result (enrich input env (extract_bggId dollar) _)) as [r|e]; cbn [trace];
    rewrite pushes_cons, ?pushes_app, Hp; [right; by exists r | by left].
Qed.

Section Dispatch.

Variable new_URL : string -> option string -> option URL.

(** X12. The request handler keeps the two kinds of page apart: on a game
    page it enqueues nothing and pushes at most one item, a game record; on
    any other page it makes no API request and no write to the key-value
    store, and pushes row records only. *)
Theorem handler_separation (input : Input) (env : Env) (request : Request)
    (dollar : Cheerio) (links : list string) :
  let run := requestHandler new_URL input env request dollar links in
  if is_game_page (page_url request)
  then enqueued (trace run) = [] /\
       List.length (pushes (trace run)) <= 1 /\
       Forall (fun i => exists r, i = ItemGame r) (pushes (trace run))
  else fetches (trace run) = [] /\ kv_writes (trace run) = [] /\
       Forall (fun i => exists r, i = ItemRow r) (pushes (trace run)).
Proof.
  cbv zeta. unfold requestHandler.
  destruct (is_game_page (page_url request)).
  - rewrite then_unit_trace. split; [apply enqueued_game|].
    destruct (pushes_game input env request dollar) as [-> | [r ->]].
    + split; [simpl; lia | constructor].
    + split; [simpl; lia|]. repeat constructor. by exists r.
  - destruct (listing_trace new_URL input env request dollar links) as [Ht _].
    destruct (push_rows_no_enqueue new_URL env (page_url request) 0 (dollar SelRows))
      as (_ & Hf & Hk).
    assert (Hnone : forall rs : list Request,
              fetches (Enqueue <$> rs) = [] /\ kv_writes (Enqueue <$> rs) = []).
    { intros rs. by induction rs. }
    split; [|split].
    + rewrite Ht, fetches_cons, fetches_app, Hf. by rewrite (proj1 (Hnone _)).
    + rewrite Ht, kv_writes_cons, kv_writes_app, Hk. by rewrite (proj2 (Hnone _)).
    + apply listing_pushes_rows_only.
Qed.

(** X14. Every start URL becomes a start request, in the order of the
    input, also a URL that does not parse: none is dropped, each keeps its
    URL, and each carries the host of its URL when it parses and no host
    when it does not. *)
Theorem startRequests_keep_seeds (input : Input) :
  url <$> startRequests new_URL input = startUrls input /\
  Forall (fun r => loadedUrl r = None /\
                   startHost (userData r) = host <$> new_URL (url r) None)
         (startRequests new_URL input).
Proof.
  unfold startRequests. induction (startUrls input) as [|u us [IHu IHf]]; [by split|].
  rewrite !fmap_cons. split.
  - f_equal; [|exact IHu]. unfold startRequest. by destruct (new_URL u None).
  - constructor; [|exact IHf]. unfold startRequest.
    destruct (new_URL u None) eqn:E; cbn; by rewrite E.
Qed.

End Dispatch.

(** ** The page classifier *)

Lemma fold_case_idem (c : ascii) : fold_case (fold_case c) = fold_case c.
Proof. destruct c as [[] [] [] [] [] [] [] []]; vm_compute; reflexivity. Qed.

Lemma map_fold_idem (s : string) :
  map_chars fold_case (map_chars fold_case s) = map_chars fold_case s.
Proof. induction s as [|c s IH]; simpl; [done|]. by rewrite fold_case_idem, IH. Qed.

Lemma prefix_map (f : ascii -> ascii) (p s : string) :
  String.prefix p s = true -> String.prefix (map_chars f p) (map_chars f s) = true.
Proof.
  revert p. induction s as [|b s IH]; intros [|a p]; simpl; try done.
  destruct (ascii_dec a b) as [->|]; [|done].
  intros H. destruct (ascii_dec (f b) (f b)); [by apply IH | done].
Qed.

Lemma includes_map (f : ascii -> ascii) (p s : string) :
  includes p s = true -> includes (map_chars f p) (map_chars f s) = true.
Proof.
  induction s as [|b s IH]; simpl.
  - rewrite orb_false_r. intros H. rewrite orb_false_r. by apply (prefix_map f p "").
  - intros H. apply orb_true_iff in H as [H | H]; apply orb_true_iff.
    + left. by apply (prefix_map f p (String b s)).
    + right. by apply IH.
Qed.

Lemma strip_prefix_prefix (p s r : string) :
  strip_prefix p s = Some r -> String.prefix p s = true.
Proof.
  revert p r. induction s as [|b s IH]; intros [|a p] r; simpl; try done.
  destruct (Ascii.eqb a b) eqn:E; [|done].
  apply Ascii.eqb_eq in E as ->. intros H.
  destruct (ascii_dec b b); [by apply (IH p r) | done].
Qed.

Lemma match_canonical_includes (s : string) (m : captures) :
  js_match re_canonical s = Some m -> includes "/boardgame/" s = true.
Proof.
  assert (Hrun : forall s m, run re_canonical s ∅ (fun _ c => Some c) = Some m ->
                             String.prefix "/boardgame/" s = true).
  { clear. intros s m. unfold re_canonical. cbn [run].
    destruct (strip_prefix "/boardgame/" s) as [r|] eqn:E; [|done].
    intros _. by apply (strip_prefix_prefix _ _ r). }
  induction s as [|c s IH]; cbn [js_match].
  - destruct (run re_canonical "" ∅ _) as [m'|] eqn:E; [|done].
    intros _. cbn [includes]. by rewrite (Hrun _ _ E).
  - destruct (run re_canonical (String c s) ∅ _) as [m'|] eqn:E.
    + intros _. cbn [includes]. by rewrite (Hrun _ _ E).
    + intros H. cbn [includes]. rewrite (IH H). apply orb_true_r.
Qed.

(** X13. The page classifier does not depend on the case of the letters of
    the URL, and every URL from which the pattern of the canonical link reads
    an identifier is classified as a game page. *)
Theorem classifier_case_and_ids (url : string) :
  is_game_page (map_chars fold_case url) = is_game_page url /\
  (forall m, js_match re_canonical url = Some m -> is_game_page url = true).
Proof.
  split.
  - unfold is_game_page, includes_ci. by rewrite map_fold_idem.
  - intros m Hm. unfold is_game_page, includes_ci.
    apply orb_true_iff. left.
    apply (includes_map fold_case "/boardgame/" url), (match_canonical_includes _ _ Hm).
Qed.

(** ** The Playwright crawler *)

Lemma playwright_unfold (input : Input) (env : Env) (request : Request) (page : Page) :
  let e := enrich input env (playwright_bggId page)
             (extract_playwright page request (now env 0)) in
  let info := LogInfo "Extracting game page (playwright)" (page_url request) in
  extractGameFromPagePlaywright input env request page =
    match result e with
    | Returned r =>
        mkRun (info :: trace e ++ [Push (ItemGame r)])
              (match dataset_pushData env (ItemGame r) with
               | None => Returned r
               | Some message => Thrown message
               end)
    | Thrown message => mkRun (info :: trace e) (Thrown message)
    end.
Proof.
  simpl. unfold extractGameFromPagePlaywright, mbind, run_bind. simpl.
  destruct (enrich input env _ _) as [t [r|m]]; simpl; [|done].
  unfold pushData, mbind, run_bind. simpl.
  destruct (dataset_pushData env (ItemGame r)); simpl; by rewrite ?app_nil_r.
Qed.

(** X15. The Playwright handler reads the identifier from the canonical
    link alone: it is a string of digits, it asks the API once when
    enrichment is on and the identifier is not empty, and a page whose
    canonical link gives no identifier is never enriched: no API request, no
    write to the key-value store, and the extracted record pushed as it
    is. *)
Theorem playwright_id_from_canonical (input : Input) (env : Env) (request : Request)
    (page : Page) :
  let run := extractGameFromPagePlaywright input env request page in
  let record := extract_playwright page request (now env 0) in
  exists d,
    id_from_canonical (attribute_or_empty page PwCanonical "href") = JStr d /\
    all_chars is_digit d = true /\
    Game.bgg_id record = JStr d /\
    fetches (trace run) =
      (if useBggApi input && negb (String.eqb d "")
       then ["https://boardgamegeek.com/xmlapi2/thing?id=" +:+ d +:+ "&stats=1"]
       else []) /\
    (d = "" -> kv_writes (trace run) = [] /\ pushes (trace run) = [ItemGame record]).
Proof.
  cbv zeta.
  destruct (id_from_canonical_digits (attribute_or_empty page PwCanonical "href"))
    as (d & Hd & Hdig).
  exists d. split; [done|]. split; [done|]. split.
  { cbn [extract_playwright Game.bgg_id]. unfold playwright_bggId. rewrite Hd.
    unfold js_or. by destruct (truthy (JStr d)) eqn:E; [|destruct d]. }
  rewrite playwright_unfold. cbv zeta. unfold playwright_bggId. rewrite Hd.
  pose proof (enrich_trace input env (JStr d)
                (extract_playwright page request (now env 0))) as Ht.
  pose proof (enrich_result input env (JStr d)
                (extract_playwright page request (now env 0))) as Hr.
  change (truthy (JStr d)) with (negb (String.eqb d "")) in Ht, Hr.
  split.
  - assert (Hf : fetches (trace (enrich input env (JStr d)
                                   (extract_playwright page request (now env 0))))
                 = if useBggApi input && negb (String.eqb d "")
                   then ["https://boardgamegeek.com/xmlapi2/thing?id=" +:+ d +:+ "&stats=1"]
                   else []).
    { rewrite Ht. destruct (useBggApi input && negb (String.eqb d "")); [|done].
      unfold api_url. cbn [to_str]. rewrite (encode_digits d Hdig).
      destruct (normalizeBggApi _) as [[n|]|e]; [|done|done].
      cbn [fetches omap]. by destruct (kv_setValue env _ _). }
    destruct (result (enrich input env (JStr d) _)); cbn [trace];
      rewrite fetches_cons, ?fetches_app, Hf; cbn [fetches omap app];
      by rewrite ?app_nil_r.
  - intros ->. rewrite andb_false_r in Ht, Hr. rewrite Hr, Ht. done.
Qed.

(** X16. The record that the Playwright handler extracts holds strings in
    its scalar fields, digits only in the year and the voter count, and a
    description of at most 2000 characters. *)
Theorem playwright_record_shape (page : Page) (request : Request) (now : string) :
  let r := extract_playwright page request now in
  (is_string (Game.name r) = true /\ is_string (Game.bgg_id r) = true /\
   is_string (Game.avg_rating r) = true /\ is_string (Game.url r) = true /\
   is_string (Game.extracted_at r) = true) /\
  (exists y v, Game.year r = JStr y /\ all_chars is_digit y = true /\
               Game.num_voters r = JStr v /\ all_chars is_digit v = true) /\
  (exists d, Game.description r = JStr d /\ String.length d <= 2000).
Proof.
  cbv zeta. split; [|split].
  - repeat split;
      repeat first [ apply is_string_js_or | apply stringish_js_or | reflexivity ].
    unfold playwright_bggId.
    by destruct (id_from_canonical_digits (attribute_or_empty page PwCanonical "href"))
      as (d & -> & _).
  - cbn [extract_playwright Game.year Game.num_voters]. unfold js_or.
    destruct (truthy (JStr (digits_only (caught (innerText page PwYear))))) eqn:Ey,
             (truthy (JStr (digits_only (caught (innerText page PwRatingsLink))))) eqn:Ev;
      rewrite ?Ev; do 2 eexists; repeat split; try apply digits_only_digits; reflexivity.
  - cbn [extract_playwright Game.description]. unfold js_or.
    destruct (truthy (JStr _)); eexists; (split; [reflexivity|]);
      [apply substring_length_le | simpl; lia].
Qed.

Section PlaywrightProperties.

Variable new_URL : string -> option string -> option URL.

(** X17. The listing branch of the Playwright crawler computes the start
    host before it calls [enqueueLinks]: when the host cannot be computed the
    handler throws and enqueues nothing; otherwise it returns, pushes nothing
    to the dataset, and every request it enqueues carries that host, the
    requests being all the candidates without [followInternalOnly] and the
    candidates on the start host with it. *)
Theorem playwright_listing (input : Input) (request : Request) (links : list string) :
  let run := listing_playwright new_URL input request links in
  match start_host new_URL request with
  | Some sh =>
      result run = Returned tt /\ pushes (trace run) = [] /\
      enqueued (trace run) =
        candidate_pw sh <$>
          (if followInternalOnly input
           then filter (fun l => on_start_host new_URL request l = true) links
           else links)
  | None => result run = Thrown "TypeError" /\ trace run = []
  end.
Proof.
  cbv zeta. unfold listing_playwright.
  destruct (start_host new_URL request) as [sh|] eqn:Hsh; [|done].
  unfold enqueueLinks. cbn [trace result]. split; [done|].
  rewrite pushes_enqueue, enqueued_enqueue. split; [done|].
  unfold transformRequestFunction, on_start_host. rewrite Hsh.
  destruct (followInternalOnly input).
  - induction links as [|l links IH]; [done|].
    cbn [omap list_omap url]. rewrite filter_cons.
    destruct (new_URL l None) as [u|].
    + destruct (String.eqb (host u) sh); cbn [negb].
      * rewrite decide_True by done. rewrite fmap_cons. by f_equal.
      * by rewrite decide_False by done.
    + by rewrite decide_False by done.
  - induction links as [|l links IH]; simpl; [done | by f_equal].
Qed.

Lemma hop_pw_hop (input : Input) (q q' : Request) :
  hop_pw new_URL input q q' -> hop new_URL input q q'.
Proof. intros [link sh child final Hg Hs Ht]. by eapply hop_playwright. Qed.

Lemma reached_pw_reached (input : Input) (u : string) (q : Request) :
  reached_pw new_URL input u q -> reached new_URL input u q.
Proof.
  intros [final Hr]. exists final.
  eapply rtc_subrel; [|exact Hr]. intros x y. apply hop_pw_hop.
Qed.

(** X18. Under the Playwright crawler with [followInternalOnly], every page
    reached from a seed URL that parses carries the host of the seed URL in
    its user data, and its own URL parses to that host. *)
Theorem playwright_propagates_start_host (input : Input) (u : string) (p : URL)
    (q : Request) :
  followInternalOnly input = true ->
  new_URL u None = Some p ->
  reached_pw new_URL input u q ->
  startHost (userData q) = Some (host p) /\
  exists pq, new_URL (url q) None = Some pq /\ host pq = host p.
Proof.
  intros Hmode Hp [final Hr]. revert q Hr.
  apply (rtc_ind_r (fun q => startHost (userData q) = Some (host p) /\
                             exists pq, new_URL (url q) None = Some pq /\
                                        host pq = host p)).
  - unfold startRequest. rewrite Hp. cbn. split; [done|]. by exists p.
  - intros y z Hy Hyz _.
    assert (Hsh : start_host new_URL y = Some (host p)).
    { rewrite (reached_start_host new_URL input Hmode u y).
      - by rewrite Hp.
      - apply reached_pw_reached. by exists final. }
    destruct Hyz as [link sh child fin _ Hs Ht].
    rewrite Hsh in Hs. injection Hs as <-.
    apply (transform_kept new_URL input Hmode) in Ht as (-> & sh' & pu & Hs' & Hpu & Hh).
    rewrite Hsh in Hs'. injection Hs' as <-.
    cbn in *. split; [done|]. by exists pu.
Qed.

End PlaywrightProperties.

(** ** Examples of the further properties *)

Lemma description_bounded_witness :
  exists d r, reconcile (extract item_42_doc sample_request "t") sample_json = Returned r /\
              Game.description r = JStr d /\ String.length d <= 2000.
Proof.
  destruct (description_bounded item_42_doc sample_request "t") as (d & _ & Hlen & Hrec).
  exists d. eexists. split; [vm_compute; reflexivity|]. split; [|exact Hlen].
  apply (Hrec sample_json). vm_compute. reflexivity.
Defined.

Lemma normalize_outcomes_witness :
  normalizeBggApi unnamed_json = Thrown "TypeError" /\
  normalizeBggApi processing_json = Returned None.
Proof.
  split.
  - apply (proj1 (proj2 (normalize_outcomes unnamed_json))). split; [reflexivity|].
    exists []. split; reflexivity.
  - apply (proj1 (normalize_outcomes processing_json)). reflexivity.
Defined.

Lemma unrestricted_follows_all_witness :
  enqueued (trace (listingPageHandler sample_new_URL open_input sample_env hot_request
                     hot_doc hot_links))
  = [candidate "https://example.test/boardgame/42";
     candidate "https://other.test/boardgame/7";
     candidate "not a url"].
Proof.
  apply (unrestricted_follows_all sample_new_URL open_input sample_env hot_request
           hot_doc hot_links).
  reflexivity.
Defined.

Lemma restricted_follows_start_host_witness :
  enqueued (trace (listingPageHandler sample_new_URL hot_input sample_env hot_request
                     hot_doc hot_links))
  = [candidate "https://example.test/boardgame/42"].
Proof.
  rewrite (restricted_follows_start_host sample_new_URL hot_input sample_env hot_request
             hot_doc hot_links eq_refl).
  vm_compute. reflexivity.
Defined.

Lemma listing_stops_at_rejected_row_witness :
  List.length (filter (fun r => truthy (RowRecord.url r) = true)
                 (imap (fun i row => rowRecord sample_new_URL "https://example.test/hot"
                                       (now rejecting_env i) row)
                       (two_rows_doc SelRows))) = 2%nat /\
  exists r, last (pushes (trace (listingPageHandler sample_new_URL hot_input
                                   rejecting_env hot_request two_rows_doc [])))
            = Some (ItemRow r) /\
            RowRecord.rank r = JStr "1" /\
            dataset_pushData rejecting_env (ItemRow r) = Some "rejected".
Proof.
  split; [vm_compute; reflexivity|].
  destruct (listing_stops_at_rejected_row sample_new_URL hot_input rejecting_env
              hot_request two_rows_doc []) as (_ & _ & Hthrow).
  destruct (Hthrow "rejected") as (r & Hlast & Hrej); [vm_compute; reflexivity|].
  exists r. split; [exact Hlast|]. split; [|exact Hrej].
  vm_compute in Hlast. injection Hlast as <-. reflexivity.
Defined.

Lemma emitted_row_fields_witness :
  exists r,
    ItemRow r ∈ pushes (trace (listingPageHandler sample_new_URL hot_input sample_env
                                 hot_request hot_doc hot_links)) /\
    RowRecord.url r = JStr "https://example.test/boardgame/42" /\
    RowRecord.source_page r = JStr "https://example.test/hot".
Proof.
  exists (rowRecord sample_new_URL "https://example.test/hot" (now sample_env 0) row_a).
  assert (Hin : ItemRow (rowRecord sample_new_URL "https://example.test/hot"
                           (now sample_env 0) row_a)
                ∈ pushes (trace (listingPageHandler sample_new_URL hot_input sample_env
                                   hot_request hot_doc hot_links))).
  { vm_compute. apply list_elem_of_here. }
  split; [exact Hin|].
  destruct (emitted_row_fields sample_new_URL hot_input sample_env hot_request hot_doc
              hot_links _ Hin) as (i & row & href & u & _ & _ & _ & _ & _ & _ & Hsrc & _).
  split; [vm_compute; reflexivity | exact Hsrc].
Defined.

Lemma classifier_case_and_ids_witness :
  is_game_page "https://boardgamegeek.com/BoardGame/42/Azul" = true /\
  is_game_page "https://boardgamegeek.com/boardgame/42/azul" = true /\
  is_game_page "https://boardgamegeek.com/hot" = false.
Proof.
  destruct (classifier_case_and_ids "https://boardgamegeek.com/BoardGame/42/Azul")
    as [Hcase _].
  destruct (classifier_case_and_ids "https://boardgamegeek.com/boardgame/42/azul")
    as [_ Hid].
  split; [|split].
  - rewrite <- Hcase. apply (Hid (<[2%nat := "42"]> ∅)). vm_compute. reflexivity.
  - apply (Hid (<[2%nat := "42"]> ∅)). vm_compute. reflexivity.
  - vm_compute. reflexivity.
Defined.

Lemma playwright_id_from_canonical_witness :
  fetches (trace (extractGameFromPagePlaywright sample_input sample_env sample_request
                    blank_page)) = [] /\
  kv_writes (trace (extractGameFromPagePlaywright sample_input sample_env sample_request
                      blank_page)) = [] /\
  fetches (trace (extractGameFromPagePlaywright sample_input sample_env sample_request
                    (canonical_page "https://boardgamegeek.com/boardgame/42/azul")))
    = ["https://boardgamegeek.com/xmlapi2/thing?id=42&stats=1"].
Proof.
  destruct (playwright_id_from_canonical sample_input sample_env sample_request blank_page)
    as (d & Hd & _ & _ & Hf & Hnone).
  vm_compute in Hd. injection Hd as <-.
  destruct (Hnone eq_refl) as [Hk _].
  destruct (playwright_id_from_canonical sample_input sample_env sample_request
              (canonical_page "https://boardgamegeek.com/boardgame/42/azul"))
    as (d' & Hd' & _ & _ & Hf' & _).
  vm_compute in Hd'. injection Hd' as <-.
  split; [exact Hf|]. split; [exact Hk | exact Hf'].
Defined.

Lemma discovered_page_pw_reached :
  reached_pw sample_new_URL hot_input hot_seed discovered_page_pw.
Proof.
  exists None. apply rtc_once.
  apply (hop_pw_intro sample_new_URL hot_input _ "https://example.test/boardgame/42"
           "example.test" (candidate_pw "example.test" "https://example.test/boardgame/42")
           (Some "https://example.test/hot")); vm_compute; reflexivity.
Qed.

Lemma playwright_propagates_start_host_witness :
  startHost (userData discovered_page_pw) = Some "example.test" /\
  exists pq, sample_new_URL (url discovered_page_pw) None = Some pq /\
             host pq = "example.test".
Proof.
  apply (playwright_propagates_start_host sample_new_URL hot_input hot_seed
           (mkURL "https" "example.test" "//example.test/hot") discovered_page_pw);
    [reflexivity | reflexivity | exact discovered_page_pw_reached].
Defined.

(** ** Reconciliation: further properties *)

Lemma js_or_idem (a b : JsVal) : js_or a (js_or a b) = js_or a b.
Proof. unfold js_or. by destruct (truthy a). Qed.

Lemma nonempty_or_idem (a b : list JsVal) :
  nonempty_or a (nonempty_or a b) = nonempty_or a b.
Proof. by destruct a. Qed.

Lemma assign_idem (h : Game.t) (n : Item.t) : assign (assign h n) n = assign h n.
Proof.
  unfold assign. cbn [Game.name Game.bgg_id Game.year Game.avg_rating Game.num_voters
    Game.designers Game.mechanics Game.categories Game.description Game.url
    Game.extracted_at Game.geek_rating].
  rewrite !js_or_idem, !nonempty_or_idem. f_equal.
  unfold js_or. destruct (truthy (Item.geek_rating n)) eqn:En; rewrite ?En; [done|].
  destruct (truthy (Game.geek_rating h)) eqn:Eh; rewrite ?Eh; [done|]. reflexivity.
Qed.

(** X19. Reconciling a record a second time with the same payload changes
    nothing: the handler can meet the same item again and again. *)
Theorem reconcile_idempotent (h r : Game.t) (apiJson : JsVal) :
  reconcile h apiJson = Returned r -> reconcile r apiJson = Returned r.
Proof.
  unfold reconcile. destruct (normalizeBggApi apiJson) as [[n|]|e]; [| |done];
    cbn [mbind outcome_bind merge]; intros [= <-]; [|done].
  by rewrite assign_idem.
Qed.

Lemma reconcile_idempotent_witness :
  exists r, reconcile bob_alice_record alice_json = Returned r /\
            reconcile r alice_json = Returned r /\
            Game.designers r = [JStr "Alice"].
Proof.
  eexists. split; [vm_compute; reflexivity|]. split.
  - apply (reconcile_idempotent bob_alice_record). vm_compute. reflexivity.
  - vm_compute. reflexivity.
Defined.

(** X20. Reconciliation never touches the identity of the record: the
    identifier, the URL and the time of extraction stay those of the HTML
    record, whatever identifier the payload holds. *)
Theorem reconcile_keeps_identity (h r : Game.t) (apiJson : JsVal) :
  reconcile h apiJson = Returned r ->
  Game.bgg_id r = Game.bgg_id h /\ Game.url r = Game.url h /\
  Game.extracted_at r = Game.extracted_at h.
Proof.
  unfold reconcile. destruct (normalizeBggApi apiJson) as [[n|]|e]; [| |done];
    cbn [mbind outcome_bind merge]; by intros [= <-].
Qed.

Lemma reconcile_keeps_identity_witness :
  exists r, reconcile bare_record sample_json = Returned r /\
            Game.bgg_id r = JStr "" /\ Game.bgg_id r = Game.bgg_id bare_record.
Proof.
  eexists. split; [vm_compute; reflexivity|].
  destruct (reconcile_keeps_identity bare_record _ sample_json
              ltac:(vm_compute; reflexivity)) as (Hid & _ & _).
  split; [|exact Hid]. rewrite Hid. reflexivity.
Defined.

(** X21. A payload whose item has no statistics leaves the ratings of the
    HTML record: the average rating and the voter count stay as extracted,
    and the geek rating is the one of the record when it has one and the
    empty string otherwise. *)
Theorem reconcile_without_statistics (h r : Game.t) (apiJson : JsVal) :
  lacks_item apiJson = false ->
  truthy (get (get apiJson "thing") "statistics") = false ->
  reconcile h apiJson = Returned r ->
  Game.avg_rating r = Game.avg_rating h /\
  Game.num_voters r = Game.num_voters h /\
  Game.geek_rating r = js_or (Game.geek_rating h) (JStr "").
Proof.
  intros Hl Hs. unfold reconcile.
  destruct (normalizeBggApi apiJson) as [[n|]|e] eqn:H; [| |done];
    cbn [mbind outcome_bind merge]; intros [= <-].
  - destruct (lacks_item_false apiJson Hl) as (Hj & Ht & Hg).
    unfold normalizeBggApi in H. rewrite Hj, Hg in H. cbn [negb] in H.
    unfold mbind at 1 in H. unfold outcome_bind at 1 in H. rewrite Ht in H.
    cbn [negb] in H. unfold dot, cond, and_then in H. cbn [mbind outcome_bind] in H.
    rewrite !(getp_truthy (get apiJson "thing")) in H by done.
    cbn [mbind outcome_bind] in H. rewrite Hs in H. cbn [mbind outcome_bind] in H.
    repeat (bind_inv H). injection H as <-.
    repeat match goal with
    | Hx : _ = Returned _ |- _ =>
        progress (rewrite ?Hs in Hx; cbn [mbind outcome_bind] in Hx)
    end.
    simplify_eq.
    cbn [assign Game.avg_rating Game.num_voters Game.geek_rating Item.avg_rating
         Item.num_voters Item.geek_rating].
    done.
  - apply normalize_none_lacks_item in H. congruence.
Qed.

Lemma reconcile_without_statistics_witness :
  exists r, reconcile bob_alice_record alice_json = Returned r /\
            Game.avg_rating r = JStr "" /\ Game.geek_rating r = JStr "".
Proof.
  eexists. split; [vm_compute; reflexivity|].
  destruct (reconcile_without_statistics bob_alice_record _ alice_json eq_refl eq_refl
              ltac:(vm_compute; reflexivity)) as (Ha & _ & Hg).
  split; [exact Ha | exact Hg].
Defined.
